(** * Session, token and authorization core of the moltbook frontend

    A shallow embedding of the TypeScript sources

    - [lib/auth/roles.ts]   (role table, route rules, permission resolver),
    - [lib/auth/store.ts]   (rotating in-memory session store),
    - [lib/auth/keys.ts], [lib/auth/jwt.ts] (key provider and token service),
    - [app/api/auth/login/route.ts], [app/api/auth/refresh/route.ts],
    - [middleware.ts]       (authorization gate),

    followed by the properties the specification states about them.

    Conventions.  A JavaScript string is the Rocq string of its UTF-8
    bytes (strings with unpaired surrogates have none and are left out),
    numbers that hold millisecond or second timestamps and counters are
    [Z].  Every reading of
    [Date.now()] and every result of [randomUUID()] is an explicit argument of
    the function that performs it, module-level [Map]s are threaded as state. *)

From Stdlib Require Import ZArith Lia Bool List Ascii String.
From stdpp Require Import base option list strings gmap.

Local Open Scope string_scope.
Local Open Scope Z_scope.

(* ===================================================================== *)
(** * lib/auth/roles.ts *)
(* ===================================================================== *)

Module Roles.

(** [export type Role = 'admin' | 'agent'] *)
Inductive Role : Set := admin | agent.

Definition role_name (r : Role) : string :=
  match r with admin => "admin" | agent => "agent" end.

(** [ROLE_PERMISSIONS: Record<Role, string[]>] *)
Definition ROLE_PERMISSIONS (r : Role) : list string :=
  match r with
  | admin => ["read"; "write"; "delete"; "admin"]
  | agent => ["read"; "write"]
  end.

(** The fragment of JavaScript regular expressions the rule table uses.
    Every pattern of the table starts with [^] and carries no flag, so a
    pattern is matched at offset 0 only and may end anywhere in the input. *)
Inductive regex : Set :=
| Lit (s : string)            (* a run of literal characters *)
| PlusNot (c : ascii)         (* [^c]+ *)
| Seq (r1 r2 : regex)         (* r1 r2 *)
| Alt (r1 r2 : regex).        (* (r1|r2) *)

(** [strip p s] removes the literal [p] from the front of [s]. *)
Fixpoint strip (p s : string) : option string :=
  match p with
  | EmptyString => Some s
  | String a p' =>
      match s with
      | EmptyString => None
      | String b s' => if Ascii.eqb a b then strip p' s' else None
      end
  end.

(** [[^c]+] followed by the continuation [k]: greedy, longest run first,
    giving characters back one at a time as the backtracking matcher does. *)
Fixpoint many_not (c : ascii) (s : string) (k : string -> bool) : bool :=
  match s with
  | EmptyString => false
  | String b s' =>
      if Ascii.eqb b c then false else many_not c s' k || k s'
  end.

(** Backtracking match of [r] at the front of [s]; [k] receives the rest. *)
Fixpoint rmatch (r : regex) (s : string) (k : string -> bool) : bool :=
  match r with
  | Lit p => match strip p s with Some s' => k s' | None => false end
  | PlusNot c => many_not c s k
  | Seq r1 r2 => rmatch r1 s (fun s' => rmatch r2 s' k)
  | Alt r1 r2 => rmatch r1 s k || rmatch r2 s k
  end.

(** [/^r/.test(s)] *)
Definition test (r : regex) (s : string) : bool := rmatch r s (fun _ => true).

Record Rule : Set := { method : string; pattern : regex; requires : string }.

(** [ROUTE_PERMISSIONS], in source order:
    [/^\/api\//], [/^\/api\/agents/],
    [/^\/api\/posts\/[^/]+\/(upvote|downvote)/]. *)
Definition ROUTE_PERMISSIONS : list Rule :=
  [ {| method := "DELETE"; pattern := Lit "/api/"; requires := "delete" |};
    {| method := "PATCH"; pattern := Lit "/api/agents"; requires := "write" |};
    {| method := "POST";
       pattern := Seq (Lit "/api/posts/")
                    (Seq (PlusNot "/"%char)
                       (Seq (Lit "/") (Alt (Lit "upvote") (Lit "downvote"))));
       requires := "write" |} ].

(** [rule.method === method && rule.pattern.test(pathname)] *)
Definition rule_matches (m pathname : string) (rule : Rule) : bool :=
  String.eqb (method rule) m && test (pattern rule) pathname.

(** The [for (const rule of ROUTE_PERMISSIONS)] loop with its early return;
    [None] when the loop runs to its end. *)
Fixpoint first_rule (rules : list Rule) (m pathname : string) : option string :=
  match rules with
  | [] => None
  | rule :: rest =>
      if rule_matches m pathname rule then Some (requires rule)
      else first_rule rest m pathname
  end.

(** [method === 'GET' || method === 'HEAD' ? 'read' : 'write'] *)
Definition default_permission (m : string) : string :=
  if String.eqb m "GET" || String.eqb m "HEAD" then "read" else "write".

Definition getRequiredPermission (m pathname : string) : string :=
  match first_rule ROUTE_PERMISSIONS m pathname with
  | Some p => p
  | None => default_permission m
  end.

End Roles.

(* ===================================================================== *)
(** * lib/auth/store.ts *)
(* ===================================================================== *)

Module Store.

(** [interface Session] *)
Record Session : Set := {
  moltbookApiKey : string;
  userId : string;
  expiresAt : Z;
  used : bool
}.

(** [session.used = true], the only field assignment of the module. *)
Definition mark_used (s : Session) : Session :=
  {| moltbookApiKey := moltbookApiKey s; userId := userId s;
     expiresAt := expiresAt s; used := true |}.

(** The two module-level maps.  A [Set<string>] is the list of its members
    in insertion order, without repetition. *)
Record State : Type := {
  sessions : gmap string Session;
  userSessions : gmap string (list string)
}.

Definition empty_state : State := {| sessions := ∅; userSessions := ∅ |}.

(** [Set.prototype.add] and [Set.prototype.delete] *)
Definition set_add (id : string) (ids : list string) : list string :=
  if bool_decide (id ∈ ids) then ids else ids ++ [id].

Definition set_delete (id : string) (ids : list string) : list string :=
  filter (λ x, x ≠ id) ids.

Definition SESSION_TTL_MS : Z := 7 * 24 * 60 * 60 * 1000.

(** [session.expiresAt < now || session.used] *)
Definition prunable (now : Z) (s : Session) : bool :=
  (expiresAt s <? now) || used s.

(** Body of the loop of [pruneExpired] for one entry [[id, session]];
    [userSessions.get(session.userId)?.delete(id)] is an [alter]. *)
Definition prune_entry (now : Z) (id : string) (s : Session) (st : State) : State :=
  if prunable now s then
    {| sessions := delete id (sessions st);
       userSessions := alter (set_delete id) (userId s) (userSessions st) |}
  else st.

(** [pruneExpired], run by the hourly timer; [now] is its [Date.now()].
    Each entry present when the sweep starts is visited once. *)
Definition pruneExpired (now : Z) (st : State) : State :=
  map_fold (prune_entry now) st (sessions st).

(** [createSession]; [uuid] is the result of [randomUUID()] and [now] the
    reading of [Date.now()]. *)
Definition createSession (uuid : string) (now : Z) (uid key : string)
    (st : State) : string * State :=
  let id := uuid in
  let exp := now + SESSION_TTL_MS in
  let sessions1 :=
    <[id := {| moltbookApiKey := key; userId := uid;
               expiresAt := exp; used := false |}]> (sessions st) in
  let users1 :=
    match userSessions st !! uid with
    | Some _ => userSessions st
    | None => <[uid := []]> (userSessions st)
    end in
  (id, {| sessions := sessions1;
          userSessions := alter (set_add id) uid users1 |}).

(** The object [consumeSession] returns on success. *)
Record Consumed : Set := {
  c_moltbookApiKey : string;
  c_userId : string;
  newRefreshToken : string
}.

(** [consumeSession]; [now] is the [Date.now()] of the expiry test, [uuid]
    and [now_c] are what the nested [createSession] draws. *)
Definition consumeSession (now now_c : Z) (uuid : string) (refreshToken : string)
    (st : State) : option Consumed * State :=
  match sessions st !! refreshToken with
  | None => (None, st)
  | Some session =>
      if expiresAt session <? now then
        (None, {| sessions := delete refreshToken (sessions st);
                  userSessions := userSessions st |})
      else if used session then (None, st)
      else
        let st1 := {| sessions := <[refreshToken := mark_used session]> (sessions st);
                      userSessions := userSessions st |} in
        let '(newTok, st2) :=
          createSession uuid now_c (userId session) (moltbookApiKey session) st1 in
        (Some {| c_moltbookApiKey := moltbookApiKey session;
                 c_userId := userId session;
                 newRefreshToken := newTok |}, st2)
  end.

(** The loop of [getMoltbookKey] over the user's identifiers. *)
Fixpoint first_live_key (now : Z) (m : gmap string Session) (ids : list string)
    : option string :=
  match ids with
  | [] => None
  | id :: rest =>
      match m !! id with
      | Some s =>
          if negb (used s) && (now <? expiresAt s) then Some (moltbookApiKey s)
          else first_live_key now m rest
      | None => first_live_key now m rest
      end
  end.

Definition getMoltbookKey (now : Z) (uid : string) (st : State) : option string :=
  match userSessions st !! uid with
  | None => None
  | Some ids => first_live_key now (sessions st) ids
  end.

Definition invalidateUser (uid : string) (st : State) : State :=
  match userSessions st !! uid with
  | None => st
  | Some ids =>
      {| sessions := foldl (λ m id, delete id m) (sessions st) ids;
         userSessions := delete uid (userSessions st) |}
  end.

(** ** Sequential histories of store operations

    One constructor per exported function and one for the timer callback,
    each with the clock readings and identifiers it draws. *)
Inductive Op : Set :=
| OpCreate (uuid : string) (now : Z) (uid key : string)
| OpConsume (now now_c : Z) (uuid : string) (refreshToken : string)
| OpGetKey (now : Z) (uid : string)
| OpInvalidate (uid : string)
| OpPrune (now : Z).

Inductive Ret : Set :=
| RetId (id : string)
| RetConsumed (r : option Consumed)
| RetKey (k : option string)
| RetVoid.

Definition step (op : Op) (st : State) : Ret * State :=
  match op with
  | OpCreate uuid now uid key =>
      let '(id, st') := createSession uuid now uid key st in (RetId id, st')
  | OpConsume now now_c uuid tok =>
      let '(r, st') := consumeSession now now_c uuid tok st in (RetConsumed r, st')
  | OpGetKey now uid => (RetKey (getMoltbookKey now uid st), st)
  | OpInvalidate uid => (RetVoid, invalidateUser uid st)
  | OpPrune now => (RetVoid, pruneExpired now st)
  end.

(** Results of a history, in order, and the final state. *)
Fixpoint run (ops : list Op) (st : State) : list Ret * State :=
  match ops with
  | [] => ([], st)
  | op :: rest =>
      let '(r, st1) := step op st in
      let '(rs, st2) := run rest st1 in
      (r :: rs, st2)
  end.

(** The identifier an operation stores a new entry under, if any. *)
Definition creates (op : Op) : option string :=
  match op with
  | OpCreate uuid _ _ _ => Some uuid
  | OpConsume _ _ uuid _ => Some uuid
  | _ => None
  end.

(** [op] is a [consumeSession(id)] call and [r] its successful result. *)
Definition consumed_ok (id : string) (op : Op) (r : Ret) : bool :=
  match op, r with
  | OpConsume _ _ _ tok, RetConsumed (Some _) => String.eqb tok id
  | _, _ => false
  end.

(** Number of successful [consumeSession(id)] calls in a history. *)
Fixpoint successes (id : string) (ops : list Op) (st : State) : nat :=
  match ops with
  | [] => O
  | op :: rest =>
      let '(r, st1) := step op st in
      ((if consumed_ok id op r then 1 else 0) + successes id rest st1)%nat
  end.

End Store.

(* ===================================================================== *)
(** * The jose library, as the token service uses it *)
(* ===================================================================== *)

Module Jose.

(** Claims set of a token: the registered claims jose reads or writes and
    the two private claims of [AccessTokenPayload].  [role] is the runtime
    string of the union ['agent' | 'user' | 'admin']. *)
Record JWTPayload : Set := {
  iss : option string;
  sub : option string;
  aud : option string;
  exp : option Z;
  nbf : option Z;
  iat : option Z;
  role : string;
  permissions : list string
}.

(** A signed token before serialization: protected header, claims, signature. *)
Record JWS (Signature : Type) : Type := {
  alg : string;
  payload : JWTPayload;
  signature : Signature
}.
Arguments alg {_} _.
Arguments payload {_} _.
Arguments signature {_} _.

(** The primitives of the library the model does not look into: key import,
    the RS256 signature and the compact serialization.  [Token] is the
    serialized form (a string in the source). *)
Class Primitives : Type := {
  PrivateKey : Type;
  PublicKey : Type;
  Signature : Type;
  Token : Type;
  importPKCS8 : string -> string -> option PrivateKey;
  importSPKI : string -> string -> option PublicKey;
  base64_utf8 : string -> string;
  rs_sign : PrivateKey -> string -> JWTPayload -> Signature;
  rs_verify : PublicKey -> string -> JWTPayload -> Signature -> bool;
  compact : JWS Signature -> Token;
  parse : Token -> option (JWS Signature)
}.

(** Parsing undoes serialization. *)
Class Lawful (P : Primitives) : Prop := {
  parse_compact : forall j : JWS Signature, parse (compact j) = Some j
}.

(** [sk] and [pk] are the two halves of one key pair. *)
Definition key_pair `{Primitives} (sk : PrivateKey) (pk : PublicKey) : Prop :=
  forall a p, rs_verify pk a p (rs_sign sk a p) = true.

(** [epoch(date)]: [Math.floor(date.getTime() / 1000)] *)
Definition epoch (ms : Z) : Z := ms / 1000.

(** [new SignJWT(claims).setProtectedHeader({alg}).setSubject(s)
      .setIssuedAt().setExpirationTime('15m').setIssuer(i).setAudience(a)
      .sign(key)];
    [now_iat] and [now_exp] are the clock readings of [setIssuedAt] and
    [setExpirationTime], ['15m'] is 900 seconds. *)
Definition SignJWT `{Primitives} (now_iat now_exp : Z) (a : string)
    (r : string) (perms : list string) (s i au : string)
    (key : PrivateKey) : Token :=
  let p := {| iss := Some i; sub := Some s; aud := Some au;
              exp := Some (epoch now_exp + 900); nbf := None;
              iat := Some (epoch now_iat);
              role := r; permissions := perms |} in
  compact {| alg := a; payload := p; signature := rs_sign key a p |}.

(** Claim validation of [jwtVerify] with the options [{ issuer, audience }]:
    both claims must be present, each is compared when its option is a
    non-empty string, [nbf] must not lie in the future and [exp] must lie in
    the future (no clock tolerance). *)
Definition claims_ok (now : Z) (issuer audience : string) (p : JWTPayload) : bool :=
  match iss p, aud p with
  | Some pi, Some pa =>
      (String.eqb issuer "" || String.eqb pi issuer)
      && (String.eqb audience "" || String.eqb pa audience)
      && match nbf p with Some n => n <=? epoch now | None => true end
      && match exp p with Some e => epoch now <? e | None => true end
  | _, _ => false
  end.

(** [jwtVerify(token, key, { algorithms, issuer, audience })] at clock
    reading [now]; [None] stands for every error it throws. *)
Definition jwtVerify `{Primitives} (now : Z) (token : Token) (key : PublicKey)
    (algorithms : list string) (issuer audience : string) : option JWTPayload :=
  match parse token with
  | None => None
  | Some j =>
      if bool_decide (alg j ∈ algorithms)
         && rs_verify key (alg j) (payload j) (signature j)
         && claims_ok now issuer audience (payload j)
      then Some (payload j)
      else None
  end.

End Jose.

(* ===================================================================== *)
(** * lib/auth/keys.ts *)
(* ===================================================================== *)

Module Keys.
Import Jose.

(** [process.env] *)
Abbreviation Env := (gmap string string).

(** The two module-level variables [privateKey] and [publicKey]. *)
Record Cache `{Primitives} : Type := {
  privateKey : option PrivateKey;
  publicKey : option PublicKey
}.

Definition empty_cache `{Primitives} : Cache :=
  {| privateKey := None; publicKey := None |}.

(** [getPrivateKey]; [None] is the rejected promise (variable unset or
    empty, or [importPKCS8] failing). *)
Definition getPrivateKey `{Primitives} (env : Env) (c : Cache)
    : option PrivateKey * Cache :=
  match privateKey c with
  | Some k => (Some k, c)
  | None =>
      match env !! "JWT_PRIVATE_KEY" with
      | None => (None, c)
      | Some b64 =>
          if String.eqb b64 "" then (None, c)
          else
            match importPKCS8 (base64_utf8 b64) "RS256" with
            | None => (None, c)
            | Some k => (Some k, {| privateKey := Some k; publicKey := publicKey c |})
            end
      end
  end.

Definition getPublicKey `{Primitives} (env : Env) (c : Cache)
    : option PublicKey * Cache :=
  match publicKey c with
  | Some k => (Some k, c)
  | None =>
      match env !! "JWT_PUBLIC_KEY" with
      | None => (None, c)
      | Some b64 =>
          if String.eqb b64 "" then (None, c)
          else
            match importSPKI (base64_utf8 b64) "RS256" with
            | None => (None, c)
            | Some k => (Some k, {| privateKey := privateKey c; publicKey := Some k |})
            end
      end
  end.

End Keys.

(* ===================================================================== *)
(** * lib/auth/jwt.ts *)
(* ===================================================================== *)

Module Jwt.
Import Jose Keys.

(** Argument of [signAccessToken]. *)
Record SignInput : Set := {
  in_sub : string;
  in_role : string;
  in_permissions : list string
}.

(** [process.env.JWT_ISSUER ?? 'moltbook-frontend'] and
    [process.env.JWT_AUDIENCE ?? 'moltbook-api'] *)
Definition issuer_of (env : Env) : string :=
  default "moltbook-frontend" (env !! "JWT_ISSUER").

Definition audience_of (env : Env) : string :=
  default "moltbook-api" (env !! "JWT_AUDIENCE").

(** [signAccessToken]; [None] when the private key is unavailable. *)
Definition signAccessToken `{Primitives} (env : Env) (now_iat now_exp : Z)
    (p : SignInput) (c : Cache) : option Token * Cache :=
  match getPrivateKey env c with
  | (None, c1) => (None, c1)
  | (Some key, c1) =>
      (Some (SignJWT now_iat now_exp "RS256" (in_role p) (in_permissions p)
               (in_sub p) (issuer_of env) (audience_of env) key), c1)
  end.

(** [verifyAccessToken]; [None] when the key is unavailable or [jwtVerify]
    throws.  The result is the claims set, cast to [AccessTokenPayload]. *)
Definition verifyAccessToken `{Primitives} (env : Env) (now : Z)
    (token : Token) (c : Cache) : option JWTPayload * Cache :=
  match getPublicKey env c with
  | (None, c1) => (None, c1)
  | (Some key, c1) =>
      (jwtVerify now token key ["RS256"] (issuer_of env) (audience_of env), c1)
  end.

End Jwt.

(* ===================================================================== *)
(** * Requests, and the string methods the handlers call *)
(* ===================================================================== *)

Module Http.

(** A [Headers] object: one value per lower-cased name. *)
Abbreviation Headers := (gmap string string).

(** What the handlers read of a [NextRequest]. *)
Record NextRequest : Type := {
  method : string;
  pathname : string;
  headers : Headers;
  cookies : gmap string string
}.

(** [s.split(sep)] for a one-character separator; never empty. *)
Fixpoint split (sep : ascii) (s : string) : list string :=
  match s with
  | EmptyString => [EmptyString]
  | String c s' =>
      if Ascii.eqb c sep then EmptyString :: split sep s'
      else match split sep s' with
           | h :: t => String c h :: t
           | [] => [String c EmptyString]
           end
  end.

(** The UTF-8 bytes of the code points [String.prototype.trim] removes:
    the white space TAB, VT, FF, SP, U+00A0, U+FEFF and the other space
    separators, and the line terminators LF, CR, U+2028 and U+2029. *)
Definition utf8 (bytes : list nat) : list ascii := List.map ascii_of_nat bytes.

Definition WHITE_SPACE : list (list ascii) :=
  List.map utf8
    [ [9]; [10]; [11]; [12]; [13]; [32];
      [194; 160];
      [225; 154; 128];
      [226; 128; 128]; [226; 128; 129]; [226; 128; 130]; [226; 128; 131];
      [226; 128; 132]; [226; 128; 133]; [226; 128; 134]; [226; 128; 135];
      [226; 128; 136]; [226; 128; 137]; [226; 128; 138];
      [226; 128; 168]; [226; 128; 169];
      [226; 128; 175];
      [226; 129; 159];
      [227; 128; 128];
      [239; 187; 191] ]%nat.

(** [strip_l p s] removes [p] from the front of [s]; [front codes s]
    removes the first of [codes] that [s] begins with. *)
Fixpoint strip_l (p s : list ascii) : option (list ascii) :=
  match p with
  | [] => Some s
  | a :: p' =>
      match s with
      | [] => None
      | b :: s' => if Ascii.eqb a b then strip_l p' s' else None
      end
  end.

Fixpoint front (codes : list (list ascii)) (s : list ascii) : option (list ascii) :=
  match codes with
  | [] => None
  | c :: rest =>
      match strip_l c s with
      | Some r => Some r
      | None => front rest s
      end
  end.

(** Removes members of [codes] from the front of [s] as long as there is
    one, at most [n] times. *)
Fixpoint drop_front (codes : list (list ascii)) (n : nat) (s : list ascii)
    : list ascii :=
  match n with
  | O => s
  | S n' =>
      match front codes s with
      | Some r => drop_front codes n' r
      | None => s
      end
  end.

Definition trimStart_l (s : list ascii) : list ascii :=
  drop_front WHITE_SPACE (List.length s) s.

Definition trimEnd_l (s : list ascii) : list ascii :=
  List.rev (drop_front (List.map (@List.rev ascii) WHITE_SPACE) (List.length s)
              (List.rev s)).

(** [s.trimStart()], [s.trimEnd()] and [s.trim()] *)
Definition trimStart (s : string) : string :=
  string_of_list_ascii (trimStart_l (list_ascii_of_string s)).

Definition trimEnd (s : string) : string :=
  string_of_list_ascii (trimEnd_l (list_ascii_of_string s)).

Definition trim (s : string) : string :=
  string_of_list_ascii (trimEnd_l (trimStart_l (list_ascii_of_string s))).

(** [xs.includes(x)] on strings *)
Definition includes (xs : list string) (x : string) : bool :=
  existsb (String.eqb x) xs.

(** ** [Headers.prototype.set]

    The value is converted to a byte string, which throws when a code point
    lies above U+00FF (a byte from 196 on in the UTF-8 form); leading and
    trailing HTTP white space (TAB, LF, CR, SP) is removed; what is left
    must hold no NUL, LF or CR, or the call throws. *)
Definition is_http_ws (c : ascii) : bool :=
  let n := nat_of_ascii c in
  ((n =? 9) || (n =? 10) || (n =? 13) || (n =? 32))%nat.

Fixpoint ltrim (s : string) : string :=
  match s with
  | EmptyString => EmptyString
  | String c s' => if is_http_ws c then ltrim s' else s
  end.

Fixpoint rtrim (s : string) : string :=
  match s with
  | EmptyString => EmptyString
  | String c s' =>
      match rtrim s' with
      | EmptyString => if is_http_ws c then EmptyString else String c EmptyString
      | r => String c r
      end
  end.

Definition byte_string (s : string) : bool :=
  forallb (fun c => (nat_of_ascii c <? 196)%nat) (list_ascii_of_string s).

Definition forbidden_byte (c : ascii) : bool :=
  let n := nat_of_ascii c in
  ((n =? 0) || (n =? 10) || (n =? 13))%nat.

(** The value [set] stores for [value]; [None] when it throws. *)
Definition header_value (value : string) : option string :=
  if byte_string value then
    let v := rtrim (ltrim value) in
    if existsb forbidden_byte (list_ascii_of_string v) then None else Some v
  else None.

(** [h.set(name, value)] for a valid lower-case [name]. *)
Definition headers_set (name value : string) (h : Headers) : option Headers :=
  match header_value value with
  | Some v => Some (<[name := v]> h)
  | None => None
  end.

(** [request.headers.get('x-forwarded-for')?.split(',')[0].trim() ?? 'unknown'] *)
Definition client_ip (h : Headers) : string :=
  match h !! "x-forwarded-for" with
  | Some v => trim (hd EmptyString (split ","%char v))
  | None => "unknown"
  end.

End Http.

(* ===================================================================== *)
(** * State of the server process and outcomes of the two auth handlers *)
(* ===================================================================== *)

Module Process.
Import Jose.

(** Entry of the [loginAttempts] map of the login route. *)
Record Attempt : Set := { count : Z; windowStart : Z }.

(** Module-level state shared by the handlers. *)
Record World `{Primitives} : Type := {
  store : Store.State;
  loginAttempts : gmap string Attempt;
  keys : Keys.Cache
}.

(** What one handler invocation draws from the clock and from
    [randomUUID()]: [t_check] for the rate-limit or expiry test, [t_create]
    and [uuid] inside [createSession], [t_iat] and [t_exp] inside the
    token builder. *)
Record Draws : Set := {
  t_check : Z;
  t_create : Z;
  uuid : string;
  t_iat : Z;
  t_exp : Z
}.

(** Responses of the handlers: [NextResponse.json({ error }, { status })],
    or the 200 response carrying [{ accessToken }] and the [refresh_token]
    cookie (HTTP-only, strict same-site, path [/api/auth/refresh],
    seven days). *)
Inductive Response `{Primitives} : Type :=
| ErrorJson (status : Z) (error : string)
| Issued (accessToken : Token) (refresh_token : string).

End Process.

(* ===================================================================== *)
(** * app/api/auth/login/route.ts *)
(* ===================================================================== *)

Module Login.
Import Jose Keys Http Process.

Definition RATE_WINDOW_MS : Z := 15 * 60 * 1000.
Definition RATE_LIMIT : Z := 10.

(** [checkRateLimit]; [now] is its [Date.now()]. *)
Definition checkRateLimit (now : Z) (ip : string) (tbl : gmap string Attempt)
    : bool * gmap string Attempt :=
  let fresh := <[ip := {| count := 1; windowStart := now |}]> tbl in
  match tbl !! ip with
  | None => (true, fresh)
  | Some entry =>
      if RATE_WINDOW_MS <? now - windowStart entry then (true, fresh)
      else if RATE_LIMIT <=? count entry then (false, tbl)
      else (true, <[ip := {| count := count entry + 1;
                             windowStart := windowStart entry |}]> tbl)
  end.

(** ** Histories of rate-limiter calls

    [attempts ip times tbl]: successive calls for one source at the given
    clock readings; [serve evs tbl]: calls for any sources, interleaved. *)
Fixpoint attempts (ip : string) (times : list Z) (tbl : gmap string Attempt)
    : list bool * gmap string Attempt :=
  match times with
  | [] => ([], tbl)
  | t :: rest =>
      let '(b, tbl1) := checkRateLimit t ip tbl in
      let '(bs, tbl2) := attempts ip rest tbl1 in
      (b :: bs, tbl2)
  end.

Fixpoint serve (evs : list (string * Z)) (tbl : gmap string Attempt)
    : list (string * bool) * gmap string Attempt :=
  match evs with
  | [] => ([], tbl)
  | (ip, t) :: rest =>
      let '(b, tbl1) := checkRateLimit t ip tbl in
      let '(bs, tbl2) := serve rest tbl1 in
      ((ip, b) :: bs, tbl2)
  end.

(** The second components of the pairs of [l] whose first component is [ip]. *)
Definition of_source {A} (ip : string) (l : list (string * A)) : list A :=
  List.map snd (List.filter (fun e => String.eqb (fst e) ip) l).

(** Outcome of [await request.json()] followed by [loginSchema.safeParse]. *)
Inductive Body : Set :=
| BodyThrows
| BodyInvalid
| BodyValid (apiKey : string).

(** The JSON of [/agents/me] as the handler reads it; [agentId] is
    [String(agent.agentId)]. *)
Record Agent : Set := {
  name : option string;
  id : option string;
  agentId : string
}.

(** Outcome of the [fetch] of [/agents/me] and of [meResponse.json()]. *)
Inductive Fetch : Set :=
| FetchThrows
| FetchReply (status : Z) (json : option Agent).

(** [meResponse.ok] *)
Definition ok (status : Z) : bool := (200 <=? status) && (status <=? 299).

(** [agent.name ?? agent.id ?? String(agent.agentId)] *)
Definition user_of (a : Agent) : string :=
  match name a with
  | Some n => n
  | None => match id a with Some i => i | None => agentId a end
  end.

(** [(process.env.ADMIN_USER_IDS ?? '').split(',').map(s => s.trim())
      .filter(Boolean)] *)
Definition adminIds (env : Env) : list string :=
  List.filter (fun s => negb (String.eqb s ""))
    (List.map trim (split ","%char (default "" (env !! "ADMIN_USER_IDS")))).

(** [adminIds.includes(userId) ? 'admin' : 'agent'] *)
Definition role_of (env : Env) (uid : string) : Roles.Role :=
  if includes (adminIds env) uid then Roles.admin else Roles.agent.

Definition internal_error `{Primitives} : Response :=
  ErrorJson 500 "Internal server error".

(** [POST]: [body] and [backend] are the outcomes of reading the request
    body and of the call to the backend with the submitted key. *)
Definition POST `{Primitives} (env : Env) (d : Draws) (request : NextRequest)
    (body : Body) (backend : string -> Fetch) (w : World) : Response * World :=
  let ip := client_ip (headers request) in
  let '(allowed, tbl) := checkRateLimit (t_check d) ip (loginAttempts w) in
  let w1 := {| store := store w; loginAttempts := tbl; keys := keys w |} in
  if negb allowed then (ErrorJson 429 "Too many requests", w1)
  else
    match body with
    | BodyThrows => (internal_error, w1)
    | BodyInvalid => (ErrorJson 400 "Invalid request", w1)
    | BodyValid apiKey =>
        match backend apiKey with
        | FetchThrows => (internal_error, w1)
        | FetchReply status json =>
            if status =? 401 then (ErrorJson 401 "Invalid credentials", w1)
            else if negb (ok status) then (internal_error, w1)
            else
              match json with
              | None => (internal_error, w1)
              | Some agent =>
                  let userId := user_of agent in
                  let role := role_of env userId in
                  let permissions := Roles.ROLE_PERMISSIONS role in
                  let '(refreshToken, st) :=
                    Store.createSession (uuid d) (t_create d) userId apiKey (store w1) in
                  let '(tok, kc) :=
                    Jwt.signAccessToken env (t_iat d) (t_exp d)
                      {| Jwt.in_sub := userId;
                         Jwt.in_role := Roles.role_name role;
                         Jwt.in_permissions := permissions |} (keys w1) in
                  let w2 := {| store := st; loginAttempts := tbl; keys := kc |} in
                  match tok with
                  | None => (internal_error, w2)
                  | Some accessToken => (Issued accessToken refreshToken, w2)
                  end
              end
        end
    end.

End Login.

(* ===================================================================== *)
(** * app/api/auth/refresh/route.ts *)
(* ===================================================================== *)

Module Refresh.
Import Jose Keys Http Process.

Definition unauthorized `{Primitives} : Response := ErrorJson 401 "Unauthorized".

(** [POST]; the cookie is rejected when missing or empty. *)
Definition POST `{Primitives} (env : Env) (d : Draws) (request : NextRequest)
    (w : World) : Response * World :=
  match cookies request !! "refresh_token" with
  | None => (unauthorized, w)
  | Some refreshToken =>
      if String.eqb refreshToken "" then (unauthorized, w)
      else
        let '(result, st) :=
          Store.consumeSession (t_check d) (t_create d) (uuid d) refreshToken (store w) in
        let w1 := {| store := st; loginAttempts := loginAttempts w; keys := keys w |} in
        match result with
        | None => (unauthorized, w1)
        | Some r =>
            let '(tok, kc) :=
              Jwt.signAccessToken env (t_iat d) (t_exp d)
                {| Jwt.in_sub := Store.c_userId r;
                   Jwt.in_role := "agent";
                   Jwt.in_permissions := ["read"; "write"] |} (keys w1) in
            let w2 := {| store := st; loginAttempts := loginAttempts w; keys := kc |} in
            match tok with
            | None => (Login.internal_error, w2)
            | Some accessToken =>
                (Issued accessToken (Store.newRefreshToken r), w2)
            end
        end
  end.

End Refresh.

(* ===================================================================== *)
(** * middleware.ts *)
(* ===================================================================== *)

Module Middleware.
Import Jose Http.

(** [PUBLIC_API_ROUTES], as (method, path) pairs. *)
Definition PUBLIC_API_ROUTES : list (string * string) :=
  [ ("GET", "/api/health");
    ("POST", "/api/auth/login");
    ("POST", "/api/auth/refresh") ].

Definition isPublicApiRoute (request : NextRequest) : bool :=
  existsb (fun r => String.eqb (snd r) (pathname request)
                    && String.eqb (fst r) (method request))
    PUBLIC_API_ROUTES.

(** What the gate does with the request: let it continue, with the request
    headers replaced when [request_headers] is given
    ([NextResponse.next({ request: { headers } })]), or answer it. *)
Inductive Disposition : Type :=
| Continue (request_headers : option Headers)
| Answer (status : Z) (error : string).

Record NextResponse : Type := {
  disposition : Disposition;
  response_headers : Headers
}.

Definition next (request_headers : option Headers) : NextResponse :=
  {| disposition := Continue request_headers; response_headers := ∅ |}.

(** [new NextResponse(JSON.stringify({ error }), { status, headers })] *)
Definition answer (status : Z) (error : string) : NextResponse :=
  {| disposition := Answer status error;
     response_headers := {[ "content-type" := "application/json" ]} |}.

Definition addSecurityHeaders (response : NextResponse) : NextResponse :=
  {| disposition := disposition response;
     response_headers :=
       <["referrer-policy" := "strict-origin-when-cross-origin"]>
         (<["x-content-type-options" := "nosniff"]>
            (<["x-frame-options" := "DENY"]> (response_headers response))) |}.

(** [forbidden]; its arguments are only logged. *)
Definition forbidden : NextResponse := answer 403 "Forbidden".

Definition unauthorized : NextResponse := answer 401 "Unauthorized".

(** [s.slice(n)] *)
Fixpoint slice (n : nat) (s : string) : string :=
  match n, s with
  | O, _ => s
  | S n', String _ s' => slice n' s'
  | S _, EmptyString => EmptyString
  end.

(** [authHeader?.startsWith('Bearer ') ? authHeader.slice(7) : null] *)
Definition bearer_token (h : Headers) : option string :=
  match h !! "authorization" with
  | Some a => if String.prefix "Bearer " a then Some (slice 7 a) else None
  | None => None
  end.

(** The value of [payload.sub!] as [requestHeaders.set] receives it: an
    absent subject is converted to the string of [undefined]. *)
Definition subject_string (p : JWTPayload) : string :=
  default "undefined" (sub p).

Section Gate.

(** Outcome of [await verifyAccessToken(token)] in the process the request
    reaches: the claims, or [None] when the call throws. *)
Variable verifyAccessToken : string -> option JWTPayload.

(** [middleware]; the [console.error] lines are not part of the result.  A
    [requestHeaders.set] that throws is caught like a failed verification. *)
Definition middleware (request : NextRequest) : NextResponse :=
  if negb (String.prefix "/api/" (pathname request)) then
    addSecurityHeaders (next None)
  else if isPublicApiRoute request then
    addSecurityHeaders (next None)
  else
    match bearer_token (headers request) with
    | None => unauthorized
    | Some token =>
        if String.eqb token "" then unauthorized
        else
          match verifyAccessToken token with
          | None => unauthorized
          | Some payload =>
              let userId := subject_string payload in
              let role := role payload in
              (* [Array.isArray(payload.permissions) ? ... : []]: the claim
                 is a list by the type of the payload *)
              let permissions := permissions payload in
              let required :=
                Roles.getRequiredPermission (method request) (pathname request) in
              if negb (includes permissions required) then forbidden
              else
                match headers_set "x-user-id" userId (headers request) with
                | None => unauthorized
                | Some h1 =>
                    match headers_set "x-user-role" role h1 with
                    | None => unauthorized
                    | Some requestHeaders =>
                        addSecurityHeaders (next (Some requestHeaders))
                    end
                end
          end
    end.

End Gate.

End Middleware.

(* ===================================================================== *)
(** * app/api/posts/[id]/route.ts and app/api/posts/[id]/upvote/route.ts *)
(* ===================================================================== *)

Module Proxy.
Import Http.

(** [process.env.MOLTBOOK_API_URL || 'https://www.moltbook.com/api/v1'],
    the default also standing in for an empty value. *)
Definition API_BASE (env : Keys.Env) : string :=
  match env !! "MOLTBOOK_API_URL" with
  | Some u => if String.eqb u "" then "https://www.moltbook.com/api/v1" else u
  | None => "https://www.moltbook.com/api/v1"
  end.

(** [const userId = request.headers.get('x-user-id');
     const moltbookKey = userId ? getMoltbookKey(userId) : null;]
    [now] is the clock reading inside [getMoltbookKey]. *)
Definition moltbookKey (now : Z) (request : NextRequest) (st : Store.State)
    : option string :=
  match headers request !! "x-user-id" with
  | Some userId =>
      if String.eqb userId "" then None else Store.getMoltbookKey now userId st
  | None => None
  end.

(** One [fetch] to the backend: method, URL and the [Authorization] header
    when there is one. *)
Record Call : Set := {
  call_method : string;
  call_url : string;
  call_authorization : option string
}.

Section Handlers.

(** Parsed JSON bodies, and a response object as [NextResponse] builds it. *)
Variable Json : Type.
Variable Resp : Type.

(** Outcome of a [fetch] followed by [response.json()]: a rejected fetch, or
    a status with the parsed body ([None] when parsing throws). *)
Inductive Reply : Type :=
| FetchFails
| Replied (status : Z) (data : option Json).

(** [NextResponse.json({ error }, { status })],
    [NextResponse.json(data, { status })] ([None] when it throws) and
    [new NextResponse(null, { status: 204 })]. *)
Variable error_json : string -> Z -> Resp.
Variable relay_json : Json -> Z -> option Resp.
Variable no_content : Resp.

(** The tail shared by the handlers: relay body and status of the reply,
    anything thrown on the way becoming the 500 of the [catch]. *)
Definition relay (r : Reply) : Resp :=
  match r with
  | Replied status (Some data) =>
      match relay_json data status with
      | Some resp => resp
      | None => error_json "Internal server error" 500
      end
  | _ => error_json "Internal server error" 500
  end.

Definition bearer (key : string) : string := "Bearer " ++ key.

(** [POST] of [posts/[id]/upvote]: the calls made to the backend, in order,
    and the response. *)
Definition upvote_POST (env : Keys.Env) (now : Z) (request : NextRequest)
    (id : string) (backend : Call -> Reply) (st : Store.State)
    : list Call * Resp :=
  match moltbookKey now request st with
  | None => ([], error_json "Unauthorized" 401)
  | Some key =>
      if String.eqb key "" then ([], error_json "Unauthorized" 401)
      else
        let c := {| call_method := "POST";
                    call_url := API_BASE env ++ "/posts/" ++ id ++ "/upvote";
                    call_authorization := Some (bearer key) |} in
        ([c], relay (backend c))
  end.

(** [DELETE] of [posts/[id]]: a 204 of the backend is answered without
    reading a body. *)
Definition post_DELETE (env : Keys.Env) (now : Z) (request : NextRequest)
    (id : string) (backend : Call -> Reply) (st : Store.State)
    : list Call * Resp :=
  match moltbookKey now request st with
  | None => ([], error_json "Unauthorized" 401)
  | Some key =>
      if String.eqb key "" then ([], error_json "Unauthorized" 401)
      else
        let c := {| call_method := "DELETE";
                    call_url := API_BASE env ++ "/posts/" ++ id;
                    call_authorization := Some (bearer key) |} in
        match backend c with
        | Replied 204 _ => ([c], no_content)
        | r => ([c], relay r)
        end
  end.

(** [GET] of [posts/[id]]: the backend is asked in any case, with the
    credential when there is a non-empty one. *)
Definition post_GET (env : Keys.Env) (now : Z) (request : NextRequest)
    (id : string) (backend : Call -> Reply) (st : Store.State)
    : list Call * Resp :=
  let auth :=
    match moltbookKey now request st with
    | Some key => if String.eqb key "" then None else Some (bearer key)
    | None => None
    end in
  let c := {| call_method := "GET";
              call_url := API_BASE env ++ "/posts/" ++ id;
              call_authorization := auth |} in
  ([c], relay (backend c)).

End Handlers.

End Proxy.

(* ===================================================================== *)
(** * Vocabulary of the statements *)
(* ===================================================================== *)

Section Vocabulary.
Import Roles Store Jose Http Middleware.

(** No rule of the ordered list matches the request line. *)
Definition no_rule_matches (m p : string) : Prop :=
  Forall (fun r => rule_matches m p r = false) ROUTE_PERMISSIONS.

(** The safe methods of HTTP (RFC 9110, section 9.2.1), the reading of the
    words "safe method" used to state the default as the specification
    words it. *)
Definition http_safe_method (m : string) : bool :=
  String.eqb m "GET" || String.eqb m "HEAD"
  || String.eqb m "OPTIONS" || String.eqb m "TRACE".

(** The sweep at time [now] removes [id] from the identifiers of user [u]:
    [m] has a prunable entry for [id] that belongs to [u]. *)
Definition swept (now : Z) (m : gmap string Session) (u id : string) : bool :=
  match m !! id with
  | Some s => prunable now s && String.eqb (userId s) u
  | None => false
  end.

(** The four ways [consumeSession] can go. *)
Inductive consume_spec (now now_c : Z) (uuid tok : string) (st : State)
  : option Consumed * State -> Prop :=
| consume_absent :
    sessions st !! tok = None ->
    consume_spec now now_c uuid tok st (None, st)
| consume_expired s :
    sessions st !! tok = Some s -> expiresAt s < now ->
    consume_spec now now_c uuid tok st
      (None, {| sessions := delete tok (sessions st);
                userSessions := userSessions st |})
| consume_replayed s :
    sessions st !! tok = Some s -> now <= expiresAt s -> used s = true ->
    consume_spec now now_c uuid tok st (None, st)
| consume_rotated s :
    sessions st !! tok = Some s -> now <= expiresAt s -> used s = false ->
    consume_spec now now_c uuid tok st
      (Some {| c_moltbookApiKey := moltbookApiKey s; c_userId := userId s;
               newRefreshToken := uuid |},
       (createSession uuid now_c (userId s) (moltbookApiKey s)
          {| sessions := <[tok := mark_used s]> (sessions st);
             userSessions := userSessions st |}).2).

(** An identifier is spent when the table has no entry for it or a used one. *)
Definition spent (id : string) (st : State) : Prop :=
  match sessions st !! id with
  | Some s => used s = true
  | None => True
  end.

(** A stand-in for the library: keys and signatures are numbers, a
    signature is the key that made it, a token is its own serialization. *)
Definition toy_primitives : Primitives :=
  {| PrivateKey := nat; PublicKey := nat; Signature := nat;
     Token := JWS nat;
     importPKCS8 := fun _ _ => Some 7%nat;
     importSPKI := fun _ _ => Some 7%nat;
     base64_utf8 := fun s => s;
     rs_sign := fun k _ _ => k;
     rs_verify := fun k _ _ s => Nat.eqb k s;
     compact := fun j => j;
     parse := fun t => Some t |}.

(** Two header sets that differ at most in the two identity headers. *)
Definition same_but_identity (h1 h2 : Headers) : Prop :=
  forall k, k <> "x-user-id" -> k <> "x-user-role" -> h1 !! k = h2 !! k.

(** The request is inside the API namespace and not a public route. *)
Definition protected (r : NextRequest) : Prop :=
  String.prefix "/api/" (pathname r) = true /\ isPublicApiRoute r = false.

End Vocabulary.

(** [id] stays in the identifier set of [u] across the sweep. *)
Definition kept (now : Z) (m : gmap string Store.Session) (u id : string) : Prop :=
  swept now m u id = false.

#[global] Instance kept_dec now m u id : Decision (kept now m u id).
Proof. unfold kept. apply _. Defined.

(** The test of [getMoltbookKey] on the entry of [id]: present, unused and
    expiring after [now]. *)
Definition live_entry (now : Z) (m : gmap string Store.Session) (id : string) : bool :=
  match m !! id with
  | Some s => negb (Store.used s) && (now <? Store.expiresAt s)
  | None => false
  end.

(** Every entry of the session table is listed under its owner. *)
Definition indexed (st : Store.State) : Prop :=
  forall id s, Store.sessions st !! id = Some s ->
    exists ids, Store.userSessions st !! Store.userId s = Some ids /\ id ∈ ids.

(** [s.includes(c)] for one character. *)
Fixpoint contains (c : ascii) (s : string) : bool :=
  match s with
  | EmptyString => false
  | String b s' => Ascii.eqb b c || contains c s'
  end.

(** [s] begins, or ends, with one of the code points [trim] removes. *)
Definition begins_with_white_space (s : string) : Prop :=
  exists c r, In c Http.WHITE_SPACE /\ list_ascii_of_string s = (c ++ r)%list.

Definition ends_with_white_space (s : string) : Prop :=
  exists c r, In c Http.WHITE_SPACE /\ list_ascii_of_string s = (r ++ c)%list.

(* ===================================================================== *)
(** * Properties of the permission resolver *)
(* ===================================================================== *)

Section ResolverFacts.
Import Roles.

(** The third pattern wants one non-empty path segment between
    [/api/posts/] and the verb, and does not look past the verb. *)
Example vote_pattern_samples :
  let vote := pattern (List.nth 2 ROUTE_PERMISSIONS
                         {| method := ""; pattern := Lit ""; requires := "" |}) in
  test vote "/api/posts/42/upvote" = true
  /\ test vote "/api/posts/42/downvote/x" = true
  /\ test vote "/api/posts//upvote" = false
  /\ test vote "/api/posts/4/2/upvote" = false
  /\ test vote "/api/posts/42/vote" = false
  /\ test vote "/v1/api/posts/42/upvote" = false.
Proof. repeat split; reflexivity. Qed.

(** The loop is the search for the first matching rule. *)
Lemma first_rule_find rules m p :
  first_rule rules m p = requires <$> List.find (rule_matches m p) rules.
Proof.
  induction rules as [|r rs IH]; simpl; [reflexivity|].
  destruct (rule_matches m p r); [reflexivity | exact IH].
Qed.

Lemma first_rule_in rules m p q :
  first_rule rules m p = Some q -> exists r, In r rules /\ requires r = q.
Proof.
  induction rules as [|r rs IH]; simpl; [discriminate|].
  destruct (rule_matches m p r).
  - intros [= <-]. eauto.
  - intros H; destruct (IH H) as (r' & Hin & Hr). eauto.
Qed.

Lemma first_rule_none rules m p :
  first_rule rules m p = None <-> Forall (fun r => rule_matches m p r = false) rules.
Proof.
  induction rules as [|r rs IH]; simpl.
  - split; [constructor | reflexivity].
  - destruct (rule_matches m p r) eqn:E.
    + split; [discriminate | intros H; inversion H; congruence].
    + rewrite IH. split; [intros H; constructor; assumption | intros H; inversion H; assumption].
Qed.

End ResolverFacts.

Section ResolverClaims.
Import Roles.

Lemma getRequiredPermission_find m p :
  getRequiredPermission m p =
  match List.find (rule_matches m p) ROUTE_PERMISSIONS with
  | Some r => requires r
  | None => default_permission m
  end.
Proof.
  unfold getRequiredPermission. rewrite first_rule_find.
  destruct (List.find _ _); reflexivity.
Qed.

Lemma getRequiredPermission_default m p :
  no_rule_matches m p -> getRequiredPermission m p = default_permission m.
Proof.
  intros H. apply first_rule_none in H.
  unfold getRequiredPermission. rewrite H. reflexivity.
Qed.

(** C4: [DELETE /api/posts/123] resolves to "delete" through the first
    rule, [PATCH /api/agents] to "write" through the second, and
    [GET /api/posts] to "read" through the default, no rule matching it; for
    every request line the result is the permission of the first rule of
    the ordered list that matches, the default applying when there is none. *)
Theorem resolver_first_match_examples :
  (List.find (rule_matches "DELETE" "/api/posts/123") ROUTE_PERMISSIONS
     = nth_error ROUTE_PERMISSIONS 0
   /\ getRequiredPermission "DELETE" "/api/posts/123" = "delete")
  /\ (List.find (rule_matches "PATCH" "/api/agents") ROUTE_PERMISSIONS
        = nth_error ROUTE_PERMISSIONS 1
      /\ getRequiredPermission "PATCH" "/api/agents" = "write")
  /\ (no_rule_matches "GET" "/api/posts"
      /\ getRequiredPermission "GET" "/api/posts" = "read")
  /\ (forall m p,
        getRequiredPermission m p =
        match List.find (rule_matches m p) ROUTE_PERMISSIONS with
        | Some r => requires r
        | None => default_permission m
        end).
Proof.
  repeat split; try reflexivity.
  - repeat constructor.
  - intros m p. apply getRequiredPermission_find.
Qed.

(** C5, as the specification words it, fails: [OPTIONS] is a safe method,
    no rule matches [OPTIONS /api/posts], and the resolver returns
    "write". *)
Lemma default_not_read_for_every_safe_method :
  ~ (forall m p, no_rule_matches m p ->
       getRequiredPermission m p
       = if http_safe_method m then "read" else "write").
Proof.
  intros H.
  specialize (H "OPTIONS" "/api/posts").
  assert (Hn : no_rule_matches "OPTIONS" "/api/posts") by repeat constructor.
  specialize (H Hn). vm_compute in H. discriminate H.
Qed.

(** C5, amended: when no rule of the ordered list matches, the resolver
    returns "read" exactly for the methods [GET] and [HEAD] and "write" for
    every other method string. *)
Theorem default_read_for_get_head_only (m p : string) :
  no_rule_matches m p ->
  (m = "GET" \/ m = "HEAD" -> getRequiredPermission m p = "read")
  /\ (m <> "GET" -> m <> "HEAD" -> getRequiredPermission m p = "write").
Proof.
  intros H. rewrite (getRequiredPermission_default _ _ H).
  unfold default_permission. split.
  - intros [-> | ->]; reflexivity.
  - intros Hg Hh.
    apply String.eqb_neq in Hg, Hh. rewrite Hg, Hh. reflexivity.
Qed.

Lemma default_read_for_get_head_only_witness :
  no_rule_matches "HEAD" "/api/feed"
  /\ getRequiredPermission "HEAD" "/api/feed" = "read"
  /\ getRequiredPermission "PUT" "/api/feed" = "write".
Proof.
  split; [repeat constructor|]. split.
  - apply (default_read_for_get_head_only "HEAD" "/api/feed").
    + repeat constructor.
    + right; reflexivity.
  - apply (default_read_for_get_head_only "PUT" "/api/feed").
    + repeat constructor.
    + discriminate.
    + discriminate.
Defined.

(** C9: the resolver is a total function whose result is always "read",
    "write" or "delete"; it is never "admin", and whenever it is not
    "delete" it is a permission of the [agent] role. *)
Theorem required_permission_range (m p : string) :
  (getRequiredPermission m p = "read"
   \/ getRequiredPermission m p = "write"
   \/ getRequiredPermission m p = "delete")
  /\ getRequiredPermission m p <> "admin"
  /\ (getRequiredPermission m p = "delete"
      \/ In (getRequiredPermission m p) (ROLE_PERMISSIONS agent)).
Proof.
  assert (H : getRequiredPermission m p = "read"
              \/ getRequiredPermission m p = "write"
              \/ getRequiredPermission m p = "delete").
  { unfold getRequiredPermission.
    destruct (first_rule ROUTE_PERMISSIONS m p) as [q|] eqn:E.
    - apply first_rule_in in E. destruct E as (r & Hin & <-).
      simpl in Hin.
      destruct Hin as [<- | [<- | [<- | []]]]; simpl; auto.
    - unfold default_permission.
      destruct (String.eqb m "GET" || String.eqb m "HEAD"); auto. }
  split; [exact H|].
  destruct H as [-> | [-> | ->]]; simpl; split; try discriminate; auto.
Qed.

End ResolverClaims.

(* ===================================================================== *)
(** * Properties of the session store *)
(* ===================================================================== *)

Section StoreFacts.
Import Store.

Lemma prune_fold_lookup now st (m : gmap string Session) id :
  sessions (map_fold (prune_entry now) st m) !! id =
  match m !! id with
  | Some s => if prunable now s then None else sessions st !! id
  | None => sessions st !! id
  end.
Proof.
  apply (map_fold_weak_ind
           (fun r m => sessions r !! id =
                       match m !! id with
                       | Some s => if prunable now s then None else sessions st !! id
                       | None => sessions st !! id
                       end)).
  - rewrite lookup_empty. reflexivity.
  - intros i x m' r Hi IH. unfold prune_entry.
    destruct (decide (i = id)) as [->|Hne].
    + rewrite lookup_insert_eq. rewrite Hi in IH.
      destruct (prunable now x); simpl; [apply lookup_delete_eq | exact IH].
    + rewrite lookup_insert_ne by exact Hne.
      destruct (prunable now x); simpl; [|exact IH].
      rewrite lookup_delete_ne by exact Hne. exact IH.
Qed.

(** The sweep keeps exactly the entries that are neither expired nor used. *)
Lemma pruneExpired_lookup now st id :
  sessions (pruneExpired now st) !! id =
  match sessions st !! id with
  | Some s => if prunable now s then None else Some s
  | None => None
  end.
Proof.
  unfold pruneExpired. rewrite prune_fold_lookup.
  destruct (sessions st !! id) as [s|]; [|reflexivity].
  destruct (prunable now s); reflexivity.
Qed.

Lemma filter_all {A} (P : A -> Prop) `{!forall x, Decision (P x)} (l : list A) :
  (forall x, P x) -> filter P l = l.
Proof.
  intros Hall. induction l as [|x l IH]; [reflexivity|].
  rewrite filter_cons_True by apply Hall. rewrite IH. reflexivity.
Qed.

Lemma prune_fold_users now st (m : gmap string Session) u :
  userSessions (map_fold (prune_entry now) st m) !! u
  = filter (kept now m u) <$> userSessions st !! u.
Proof.
  pose (P := fun (r : State) (m : gmap string Session) =>
               userSessions r !! u = filter (kept now m u) <$> userSessions st !! u).
  apply (map_fold_weak_ind P); subst P; cbv beta.
  - destruct (userSessions st !! u) as [l|]; simpl; [|reflexivity].
    f_equal. symmetry. apply filter_all.
    intros id. unfold kept, swept. rewrite lookup_empty. reflexivity.
  - intros i x m' r Hi IH. unfold prune_entry.
    destruct (prunable now x) eqn:Px; simpl.
    + destruct (decide (userId x = u)) as [<-|Hne].
      * rewrite lookup_alter_eq, IH.
        destruct (userSessions st !! userId x) as [l|]; simpl; [|reflexivity].
        f_equal. unfold set_delete. rewrite list_filter_filter.
        apply list_filter_iff. intros id. unfold kept, swept.
        destruct (decide (id = i)) as [->|Hid].
        -- rewrite lookup_insert_eq, Px, String.eqb_refl. simpl.
           split; [intros [? _]; contradiction | discriminate].
        -- rewrite lookup_insert_ne by congruence. tauto.
      * rewrite lookup_alter_ne by exact Hne. rewrite IH.
        destruct (userSessions st !! u) as [l|]; simpl; [|reflexivity].
        f_equal. apply list_filter_iff. intros id. unfold kept, swept.
        destruct (decide (id = i)) as [->|Hid].
        -- rewrite lookup_insert_eq, Hi, Px.
           apply String.eqb_neq in Hne. rewrite Hne. reflexivity.
        -- rewrite lookup_insert_ne by congruence. reflexivity.
    + rewrite IH.
      destruct (userSessions st !! u) as [l|]; simpl; [|reflexivity].
      f_equal. apply list_filter_iff. intros id. unfold kept, swept.
      destruct (decide (id = i)) as [->|Hid].
      * rewrite lookup_insert_eq, Hi, Px. reflexivity.
      * rewrite lookup_insert_ne by congruence. reflexivity.
Qed.

(** The sweep takes out of each user's identifier set exactly the
    identifiers of that user's removed entries: its result does not depend
    on the order in which the table is walked. *)
Lemma pruneExpired_users now st u :
  userSessions (pruneExpired now st) !! u
  = filter (kept now (sessions st) u) <$> userSessions st !! u.
Proof. apply prune_fold_users. Qed.

Lemma foldl_delete_lookup (ids : list string) (m : gmap string Session) id :
  foldl (λ m id, delete id m) m ids !! id =
  if bool_decide (id ∈ ids) then None else m !! id.
Proof.
  revert m; induction ids as [|i ids IH]; intros m; simpl.
  - reflexivity.
  - rewrite IH. destruct (decide (id = i)) as [->|Hne].
    + rewrite lookup_delete_eq.
      rewrite (bool_decide_eq_true_2 (i ∈ i :: ids)) by (left).
      destruct (bool_decide (i ∈ ids)); reflexivity.
    + rewrite lookup_delete_ne by congruence.
      destruct (bool_decide (id ∈ ids)) eqn:E.
      * apply bool_decide_eq_true_1 in E.
        rewrite (bool_decide_eq_true_2 (id ∈ i :: ids)) by (right; exact E).
        reflexivity.
      * apply bool_decide_eq_false_1 in E.
        rewrite (bool_decide_eq_false_2 (id ∈ i :: ids)); [reflexivity|].
        intros [?|?]%elem_of_cons; contradiction.
Qed.

Lemma invalidateUser_lookup uid st id :
  sessions (invalidateUser uid st) !! id = None
  \/ sessions (invalidateUser uid st) !! id = sessions st !! id.
Proof.
  unfold invalidateUser. destruct (userSessions st !! uid) as [ids|]; [|right; reflexivity].
  simpl. rewrite foldl_delete_lookup.
  destruct (bool_decide (id ∈ ids)); [left | right]; reflexivity.
Qed.

Lemma createSession_sessions uuid now uid key st :
  sessions (createSession uuid now uid key st).2 =
  <[uuid := {| moltbookApiKey := key; userId := uid;
               expiresAt := now + SESSION_TTL_MS; used := false |}]> (sessions st).
Proof. reflexivity. Qed.

Lemma consumeSession_cases now now_c uuid tok st :
  consume_spec now now_c uuid tok st (consumeSession now now_c uuid tok st).
Proof.
  unfold consumeSession.
  destruct (sessions st !! tok) as [s|] eqn:E.
  - destruct (Z.ltb_spec (expiresAt s) now).
    + eapply consume_expired; eauto.
    + destruct (used s) eqn:U.
      * eapply consume_replayed; eauto.
      * apply (consume_rotated now now_c uuid tok st s); auto.
  - apply consume_absent; assumption.
Qed.

Lemma spent_consume_none now now_c uuid id st :
  spent id st -> (consumeSession now now_c uuid id st).1 = None.
Proof.
  unfold spent. intros H.
  destruct (consumeSession_cases now now_c uuid id st) as [?|s ? ?|s ? ? ?|s E ? U];
    try reflexivity.
  rewrite E in H. congruence.
Qed.

Lemma consume_success_spent now now_c uuid id st r st' :
  consumeSession now now_c uuid id st = (Some r, st') -> uuid <> id ->
  exists s, sessions st !! id = Some s /\ used s = false
            /\ sessions st' !! id = Some (mark_used s).
Proof.
  intros H Hne.
  destruct (consumeSession_cases now now_c uuid id st) as [?|s ? ?|s ? ? ?|s E ? U];
    try discriminate H.
  injection H as _ <-. exists s. repeat split; try assumption.
  simpl.
  rewrite lookup_insert_ne by exact Hne. apply lookup_insert_eq.
Qed.

(** No operation revives a spent identifier, short of drawing it again. *)
Lemma step_spent id op st :
  creates op <> Some id -> spent id st -> spent id (step op st).2.
Proof.
  unfold spent. intros Hc H. destruct op as [u n uid k|n nc u tok|n uid|uid|n]; simpl in *.
  - rewrite lookup_insert_ne by congruence. exact H.
  - destruct (consumeSession_cases n nc u tok st) as [?|s E ?|s ? ? ?|s E ? U]; simpl;
      try exact H.
    + destruct (decide (tok = id)) as [->|Hne].
      * rewrite lookup_delete_eq. exact I.
      * rewrite lookup_delete_ne by exact Hne. exact H.
    + rewrite lookup_insert_ne by congruence.
      destruct (decide (tok = id)) as [->|Hne].
      * rewrite lookup_insert_eq. reflexivity.
      * rewrite lookup_insert_ne by exact Hne. exact H.
  - exact H.
  - destruct (invalidateUser_lookup uid st id) as [-> | ->]; [exact I | exact H].
  - rewrite pruneExpired_lookup.
    destruct (sessions st !! id) as [s|]; [|exact I].
    destruct (prunable n s); [exact I | exact H].
Qed.

Lemma spent_no_success id ops : forall st,
  Forall (fun op => creates op <> Some id) ops -> spent id st ->
  successes id ops st = O.
Proof.
  induction ops as [|op ops IH]; intros st Hall Hs; simpl; [reflexivity|].
  inversion Hall as [|? ? Hop Hrest]; subst.
  destruct (step op st) as [r st1] eqn:E.
  assert (Hs1 : spent id st1).
  { pose proof (step_spent id op st Hop Hs) as H. rewrite E in H. exact H. }
  rewrite (IH st1 Hrest Hs1).
  assert (Hr : consumed_ok id op r = false).
  { destruct op as [u n uid k|n nc u tok|n uid|uid|n]; simpl in *;
      try (destruct (createSession u n uid k st));
      try (injection E as <- <-); try reflexivity.
    destruct (String.eqb_spec tok id) as [->|Hne].
    - pose proof (spent_consume_none n nc u id st Hs) as Hn.
      destruct (consumeSession n nc u id st) as [r' st']. simpl in Hn. subst r'.
      injection E as <- <-. reflexivity.
    - destruct (consumeSession n nc u tok st) as [r' st'].
      injection E as <- <-. destruct r'; reflexivity. }
  rewrite Hr. reflexivity.
Qed.

End StoreFacts.

Section StoreClaims.
Import Store.

Lemma run_spent id ops : forall st,
  Forall (fun op => creates op <> Some id) ops -> spent id st ->
  spent id (run ops st).2.
Proof.
  induction ops as [|op ops IH]; intros st Hall Hs; simpl; [exact Hs|].
  inversion Hall as [|? ? Hop Hrest]; subst.
  pose proof (step_spent id op st Hop Hs) as H1.
  destruct (step op st) as [r st1]. simpl in H1.
  specialize (IH st1 Hrest H1).
  destruct (run ops st1) as [rs st2]. exact IH.
Qed.

Lemma successes_le_1 id ops : forall st,
  Forall (fun op => creates op <> Some id) ops ->
  (successes id ops st <= 1)%nat.
Proof.
  induction ops as [|op ops IH]; intros st Hall; simpl; [lia|].
  inversion Hall as [|? ? Hop Hrest]; subst.
  destruct (step op st) as [r st1] eqn:E.
  destruct (consumed_ok id op r) eqn:Hok.
  - destruct op as [u n uid k|n nc u tok|n uid|uid|n]; try discriminate Hok.
    destruct r as [|[c|]| |]; try discriminate Hok.
    simpl in Hok. apply String.eqb_eq in Hok. subst tok.
    simpl in E. destruct (consumeSession n nc u id st) as [r' st'] eqn:Ec.
    injection E as -> ->.
    assert (Hne : u <> id) by (simpl in Hop; congruence).
    destruct (consume_success_spent _ _ _ _ _ _ _ Ec Hne) as (s & _ & _ & Hs).
    rewrite (spent_no_success id ops st1 Hrest); [lia|].
    unfold spent. rewrite Hs. reflexivity.
  - specialize (IH st1 Hrest). lia.
Qed.

(** C1: in a history of store operations none of which draws [id] as the
    identifier of a new entry, at most one [consumeSession(id)] call
    succeeds; a successful call leaves the entry of [id] marked used, and
    after it no [consumeSession(id)] call succeeds, whatever operations
    come in between. *)
Theorem consumeSession_at_most_once (id : string) (ops : list Op) (st : State) :
  Forall (fun op => creates op <> Some id) ops ->
  (successes id ops st <= 1)%nat
  /\ (forall (pre post : list Op) now now_c uuid r st0 st1,
        ops = (pre ++ OpConsume now now_c uuid id :: post)%list ->
        st0 = (run pre st).2 ->
        consumeSession now now_c uuid id st0 = (Some r, st1) ->
        (exists s, sessions st0 !! id = Some s /\ used s = false
                   /\ sessions st1 !! id = Some (mark_used s))
        /\ successes id post st1 = O
        /\ forall now' now_c' uuid',
             (consumeSession now' now_c' uuid' id (run post st1).2).1 = None).
Proof.
  intros Hall. split; [apply successes_le_1; exact Hall|].
  intros pre post now now_c uuid r st0 st1 -> -> Hc.
  apply Forall_app in Hall. destruct Hall as [_ Hall].
  inversion Hall as [|? ? Hop Hpost]; subst.
  assert (Hne : uuid <> id) by (simpl in Hop; congruence).
  destruct (consume_success_spent _ _ _ _ _ _ _ Hc Hne) as (s & Hs0 & Hu & Hs1).
  assert (Hsp : spent id st1) by (unfold spent; rewrite Hs1; reflexivity).
  split; [exists s; auto|]. split.
  - apply spent_no_success; assumption.
  - intros. apply spent_consume_none. apply run_spent; assumption.
Qed.

(** C6: [consumeSession] on an identifier that has no entry, or whose entry
    has an expiry time earlier than the current time, returns none, whether
    the entry is marked used or not. *)
Theorem consumeSession_absent_or_expired
    (now now_c : Z) (uuid id : string) (st : State) :
  (sessions st !! id = None
   \/ exists s, sessions st !! id = Some s /\ expiresAt s < now) ->
  (consumeSession now now_c uuid id st).1 = None.
Proof.
  intros H.
  destruct (consumeSession_cases now now_c uuid id st) as [?|s ? ?|s ? ? ?|s E Hle U];
    try reflexivity.
  destruct H as [H | (s' & H & Hlt)]; rewrite E in H; [discriminate|].
  injection H as <-. lia.
Qed.



(** A store holding one live session "a", and a history that consumes it
    three times among other operations. *)
Example one_success_in_history :
  successes "a"
    [OpConsume 1 1 "b" "a"; OpGetKey 2 "u"; OpConsume 3 3 "c" "a"; OpPrune 4;
     OpConsume 5 5 "d" "a"; OpInvalidate "u"; OpConsume 6 6 "e" "a"]
    (createSession "a" 0 "u" "k" empty_state).2 = 1%nat.
Proof. vm_compute. reflexivity. Qed.

Lemma consumeSession_at_most_once_witness :
  (successes "a"
     [OpConsume 1 1 "b" "a"; OpGetKey 2 "u"; OpConsume 3 3 "c" "a"; OpPrune 4;
      OpConsume 5 5 "d" "a"; OpInvalidate "u"; OpConsume 6 6 "e" "a"]
     (createSession "a" 0 "u" "k" empty_state).2 <= 1)%nat.
Proof.
  apply (consumeSession_at_most_once "a"
           [OpConsume 1 1 "b" "a"; OpGetKey 2 "u"; OpConsume 3 3 "c" "a"; OpPrune 4;
            OpConsume 5 5 "d" "a"; OpInvalidate "u"; OpConsume 6 6 "e" "a"]
           (createSession "a" 0 "u" "k" empty_state).2).
  repeat constructor; discriminate.
Defined.

Lemma consumeSession_absent_or_expired_witness :
  let s := {| moltbookApiKey := "key"; userId := "u"; expiresAt := 5; used := false |} in
  let st := {| sessions := {[ "a" := s ]}; userSessions := {[ "u" := ["a"] ]} |} in
  (consumeSession 10 10 "b" "a" st).1 = None
  /\ (consumeSession 10 10 "b" "c" st).1 = None.
Proof.
  cbv zeta. split.
  - apply consumeSession_absent_or_expired. right.
    eexists. split; [reflexivity | simpl; lia].
  - apply consumeSession_absent_or_expired. left. reflexivity.
Defined.


End StoreClaims.

(* ===================================================================== *)
(** * Properties of the login rate limiter *)
(* ===================================================================== *)

Section LimiterFacts.
Import Process Login.

(** A call reads and writes the entry of its own source only. *)
Lemma checkRateLimit_other t ip ip' (tbl : gmap string Attempt) :
  ip <> ip' -> (checkRateLimit t ip' tbl).2 !! ip = tbl !! ip.
Proof.
  intros Hne. unfold checkRateLimit. cbv zeta.
  destruct (tbl !! ip') as [e|]; simpl.
  - destruct (RATE_WINDOW_MS <? t - windowStart e); simpl.
    + apply lookup_insert_ne. congruence.
    + destruct (RATE_LIMIT <=? count e); simpl; [reflexivity|].
      apply lookup_insert_ne. congruence.
  - apply lookup_insert_ne. congruence.
Qed.

Lemma checkRateLimit_local t ip (tbl tbl' : gmap string Attempt) :
  tbl !! ip = tbl' !! ip ->
  (checkRateLimit t ip tbl).1 = (checkRateLimit t ip tbl').1
  /\ (checkRateLimit t ip tbl).2 !! ip = (checkRateLimit t ip tbl').2 !! ip.
Proof.
  intros H. unfold checkRateLimit. cbv zeta. rewrite <- H.
  destruct (tbl !! ip) as [e|] eqn:E; simpl.
  - destruct (RATE_WINDOW_MS <? t - windowStart e); simpl.
    + rewrite !lookup_insert_eq. auto.
    + destruct (RATE_LIMIT <=? count e); simpl; [split; congruence|].
      rewrite !lookup_insert_eq. auto.
  - rewrite !lookup_insert_eq. auto.
Qed.

(** The verdicts a source receives depend on its own calls only. *)
Lemma serve_of_source ip evs : forall tbl tbl' : gmap string Attempt,
  tbl !! ip = tbl' !! ip ->
  of_source ip (serve evs tbl).1 = (attempts ip (of_source ip evs) tbl').1.
Proof.
  induction evs as [|[ip' t] evs IH]; intros tbl tbl' H; [reflexivity|].
  unfold of_source in *. cbn [serve List.filter fst].
  destruct (checkRateLimit t ip' tbl) as [b tbl1] eqn:E1.
  destruct (serve evs tbl1) as [bs tbl2] eqn:E2.
  cbn [fst List.filter]. 
  destruct (String.eqb_spec ip' ip) as [->|Hne].
  - cbn [List.map snd attempts].
    destruct (checkRateLimit t ip tbl') as [b' tbl1'] eqn:E1'.
    destruct (checkRateLimit_local t ip tbl tbl' H) as [Hb Ht].
    rewrite E1, E1' in Hb, Ht. simpl in Hb, Ht. subst b'.
    specialize (IH tbl1 tbl1' Ht). rewrite E2 in IH. cbn [fst] in IH.
    destruct (attempts ip _ tbl1') as [bs' tbl2']. cbn [fst] in *.
    f_equal. exact IH.
  - assert (Ht : tbl1 !! ip = tbl' !! ip).
    { pose proof (checkRateLimit_other t ip ip' tbl (not_eq_sym Hne)) as Ho.
      rewrite E1 in Ho. simpl in Ho. congruence. }
    specialize (IH tbl1 tbl' Ht). rewrite E2 in IH. exact IH.
Qed.

(** While the counter is below the limit and the window is open a call is
    admitted and counted. *)
Lemma attempts_within_window ip t0 ts : forall c (tbl : gmap string Attempt),
  tbl !! ip = Some {| count := c; windowStart := t0 |} ->
  Forall (fun t => t - t0 <= RATE_WINDOW_MS) ts ->
  c + Z.of_nat (length ts) <= RATE_LIMIT ->
  (attempts ip ts tbl).1 = List.repeat true (length ts)
  /\ (attempts ip ts tbl).2 !! ip
     = Some {| count := c + Z.of_nat (length ts); windowStart := t0 |}.
Proof.
  induction ts as [|t ts IH]; intros c tbl Hl Hall Hc.
  - simpl. rewrite Z.add_0_r. auto.
  - inversion Hall as [|? ? Ht Hrest]; subst.
    cbn [length] in Hc.
    assert (Hstep : checkRateLimit t ip tbl
                    = (true, <[ip := {| count := c + 1; windowStart := t0 |}]> tbl)).
    { unfold checkRateLimit. rewrite Hl. cbn [windowStart count].
      destruct (Z.ltb_spec RATE_WINDOW_MS (t - t0)); [lia|].
      destruct (Z.leb_spec RATE_LIMIT c); [lia|]. reflexivity. }
    cbn [attempts]. rewrite Hstep.
    specialize (IH (c + 1)
                  (<[ip := {| count := c + 1; windowStart := t0 |}]> tbl)
                  (lookup_insert_eq _ _ _) Hrest ltac:(lia)).
    destruct (attempts ip ts _) as [bs tbl2]. cbn [fst snd] in *.
    destruct IH as [IH1 IH2]. split.
    + rewrite IH1. reflexivity.
    + rewrite IH2. cbn [length]. do 2 f_equal. lia.
Qed.

End LimiterFacts.

Section LimiterClaims.
Import Jose Http Process Login.

Lemma attempts_app ip l1 : forall l2 (tbl : gmap string Attempt),
  attempts ip (l1 ++ l2)%list tbl =
  ((attempts ip l1 tbl).1 ++ (attempts ip l2 (attempts ip l1 tbl).2).1,
   (attempts ip l2 (attempts ip l1 tbl).2).2)%list.
Proof.
  induction l1 as [|t l1 IH]; intros l2 tbl.
  - simpl. destruct (attempts ip l2 tbl); reflexivity.
  - cbn [attempts app]. destruct (checkRateLimit t ip tbl) as [b tbl1].
    rewrite IH. destruct (attempts ip l1 tbl1) as [bs tbl2]. cbn [fst snd].
    destruct (attempts ip l2 tbl2); reflexivity.
Qed.

(** The handler answers 429 exactly when the limiter rejects the call. *)
Lemma POST_rate_limited `{Primitives} env d request body backend w :
  (checkRateLimit (t_check d) (client_ip (headers request)) (loginAttempts w)).1 = false
  <-> (POST env d request body backend w).1 = ErrorJson 429 "Too many requests".
Proof.
  unfold POST.
  destruct (checkRateLimit _ _ _) as [[|] tbl]; cbn [fst negb].
  - split; [discriminate|].
    destruct body as [| |k]; try discriminate.
    destruct (backend k) as [|status [a|]]; try discriminate;
      destruct (status =? 401); try discriminate;
      destruct (ok status); try discriminate.
    cbn [negb]. destruct (Store.createSession _ _ _ _ _) as [rt st].
    destruct (Jwt.signAccessToken _ _ _ _ _) as [[tok|] kc]; discriminate.
  - split; reflexivity.
Qed.

(** C7: for one client source, whose calls may be interleaved with those of
    other sources: when a window opens at its first attempt (no entry, or
    an entry older than 15 minutes), that attempt and the next nine within
    15 minutes of it are admitted, the eleventh within those 15 minutes is
    rejected, and an attempt more than 15 minutes after the first is
    admitted again; the login handler answers a rejected attempt with 429
    "Too many requests". *)
Theorem login_rate_limit_window
    (ip : string) (evs : list (string * Z)) (tbl : gmap string Attempt)
    (t0 : Z) (ts : list Z) (t11 t_after : Z) :
  of_source ip evs = (t0 :: ts ++ [t11; t_after])%list ->
  (tbl !! ip = None
   \/ exists e, tbl !! ip = Some e /\ 15 * 60 * 1000 < t0 - windowStart e) ->
  length ts = 9%nat ->
  Forall (fun t => t - t0 <= 15 * 60 * 1000) ts ->
  t11 - t0 <= 15 * 60 * 1000 ->
  15 * 60 * 1000 < t_after - t0 ->
  of_source ip (serve evs tbl).1 = (List.repeat true 10 ++ [false; true])%list
  /\ (forall (P : Primitives) env d request body backend w,
        (checkRateLimit (t_check d) (client_ip (headers request))
           (loginAttempts w)).1 = false ->
        (POST env d request body backend w).1
        = ErrorJson 429 "Too many requests").
Proof.
  intros Hevs Hopen Hlen Hts H11 Hafter.
  split; [|intros; apply POST_rate_limited; assumption].
  rewrite (serve_of_source ip evs tbl tbl eq_refl), Hevs.
  set (tbl1 := <[ip := {| count := 1; windowStart := t0 |}]> tbl).
  assert (H0 : checkRateLimit t0 ip tbl = (true, tbl1)).
  { unfold checkRateLimit. destruct Hopen as [-> | (e & -> & He)]; [reflexivity|].
    destruct (Z.ltb_spec RATE_WINDOW_MS (t0 - windowStart e)); [reflexivity|].
    unfold RATE_WINDOW_MS in *. lia. }
  cbn [attempts]. rewrite H0. rewrite attempts_app.
  destruct (attempts_within_window ip t0 ts 1 tbl1) as [Hbs Htbl].
  { apply lookup_insert_eq. }
  { exact Hts. }
  { rewrite Hlen. unfold RATE_LIMIT. lia. }
  rewrite Hlen in Hbs, Htbl.
  destruct (attempts ip ts tbl1) as [bs tbl2]. cbn [fst snd] in *. subst bs.
  cbn [attempts].
  assert (H1 : checkRateLimit t11 ip tbl2 = (false, tbl2)).
  { unfold checkRateLimit. rewrite Htbl. cbn [windowStart count].
    destruct (Z.ltb_spec RATE_WINDOW_MS (t11 - t0));
      [unfold RATE_WINDOW_MS in *; lia | reflexivity]. }
  rewrite H1.
  assert (H2 : (checkRateLimit t_after ip tbl2).1 = true).
  { unfold checkRateLimit. rewrite Htbl. cbn [windowStart count].
    destruct (Z.ltb_spec RATE_WINDOW_MS (t_after - t0));
      [reflexivity | unfold RATE_WINDOW_MS in *; lia]. }
  destruct (checkRateLimit t_after ip tbl2) as [b tbl3]. cbn [fst snd] in *.
  subst b. reflexivity.
Qed.

Lemma login_rate_limit_window_witness :
  of_source "10.0.0.1"
    (serve [("10.0.0.1", 0); ("10.0.0.1", 1); ("10.0.0.2", 2); ("10.0.0.1", 3);
            ("10.0.0.1", 4); ("10.0.0.1", 5); ("10.0.0.1", 6); ("10.0.0.2", 7);
            ("10.0.0.1", 8); ("10.0.0.1", 9); ("10.0.0.1", 10);
            ("10.0.0.1", 900000); ("10.0.0.1", 900000); ("10.0.0.1", 900001)]
       ∅).1
  = [true; true; true; true; true; true; true; true; true; true; false; true].
Proof.
  apply (login_rate_limit_window "10.0.0.1" _ ∅ 0
           [1; 3; 4; 5; 6; 8; 9; 10; 900000] 900000 900001).
  - reflexivity.
  - left. reflexivity.
  - reflexivity.
  - repeat constructor; lia.
  - lia.
  - lia.
Defined.

End LimiterClaims.

(* ===================================================================== *)
(** * Properties of the token service *)
(* ===================================================================== *)

Section TokenClaims.
Import Jose Keys Jwt.

Lemma claims_ok_issued now now_iat now_exp r perms s i au :
  epoch now < epoch now_exp + 900 ->
  claims_ok now i au
    {| iss := Some i; sub := Some s; aud := Some au;
       exp := Some (epoch now_exp + 900); nbf := None;
       iat := Some (epoch now_iat); role := r; permissions := perms |} = true.
Proof.
  intros H. unfold claims_ok. cbn [iss aud nbf exp].
  rewrite !String.eqb_refl, !orb_true_r. cbn [andb].
  apply Z.ltb_lt. exact H.
Qed.

(** C3: with a private and a public key that form one pair and a clock
    reading before the expiry written into the token (15 minutes after
    issue), [verifyAccessToken] accepts the token [signAccessToken] builds
    for any subject, role and permission list, and the payload it returns
    has exactly that subject, role and permission list. *)
Theorem verify_issued_token
    (P : Primitives) (L : Lawful P) (env : Env) (c c' : Cache)
    (sk : PrivateKey) (pk : PublicKey) (p : SignInput)
    (now_iat now_exp now : Z) :
  (getPrivateKey env c).1 = Some sk ->
  (getPublicKey env c').1 = Some pk ->
  key_pair sk pk ->
  epoch now < epoch now_exp + 900 ->
  exists tok out,
    (signAccessToken env now_iat now_exp p c).1 = Some tok
    /\ (verifyAccessToken env now tok c').1 = Some out
    /\ sub out = Some (in_sub p)
    /\ role out = in_role p
    /\ permissions out = in_permissions p
    /\ exp out = Some (epoch now_exp + 900).
Proof.
  intros Hsk Hpk Hpair Hnow.
  unfold signAccessToken, verifyAccessToken.
  destruct (getPrivateKey env c) as [osk c1]. simpl in Hsk. subst osk.
  destruct (getPublicKey env c') as [opk c1']. simpl in Hpk. subst opk.
  eexists _, _. split; [reflexivity|].
  cbn [fst]. unfold jwtVerify, SignJWT. rewrite parse_compact. cbn [alg payload signature].
  rewrite Hpair.
  rewrite (claims_ok_issued now now_iat now_exp _ _ _ _ _ Hnow).
  rewrite (bool_decide_eq_true_2 ("RS256" ∈ ["RS256"])) by (left).
  cbn [andb]. repeat split; reflexivity.
Qed.

Lemma toy_lawful : Lawful toy_primitives.
Proof. constructor. reflexivity. Qed.

Lemma verify_issued_token_witness :
  exists tok out,
    (@signAccessToken toy_primitives
       {[ "JWT_PRIVATE_KEY" := "cHJpdg=="; "JWT_PUBLIC_KEY" := "cHVi" ]}
       1000 1000
       {| in_sub := "alice"; in_role := "admin";
          in_permissions := ["read"; "write"; "delete"; "admin"] |}
       empty_cache).1 = Some tok
    /\ (@verifyAccessToken toy_primitives
          {[ "JWT_PRIVATE_KEY" := "cHJpdg=="; "JWT_PUBLIC_KEY" := "cHVi" ]}
          900999 tok empty_cache).1 = Some out
    /\ sub out = Some "alice"
    /\ role out = "admin"
    /\ permissions out = ["read"; "write"; "delete"; "admin"]
    /\ exp out = Some 901.
Proof.
  apply (verify_issued_token toy_primitives toy_lawful
           {[ "JWT_PRIVATE_KEY" := "cHJpdg=="; "JWT_PUBLIC_KEY" := "cHVi" ]}
           empty_cache empty_cache 7%nat 7%nat
           {| in_sub := "alice"; in_role := "admin";
              in_permissions := ["read"; "write"; "delete"; "admin"] |}
           1000 1000 900999).
  - reflexivity.
  - reflexivity.
  - intros a q. reflexivity.
  - reflexivity.
Defined.

End TokenClaims.

(* ===================================================================== *)
(** * Roles in the tokens of the login and refresh handlers *)
(* ===================================================================== *)

Section IssuedRoles.
Import Jose Keys Http Process.

(** The login handler signs tokens for the user the backend names, with
    the role the administrator list gives that user and the permissions of
    that role. *)
Lemma login_token_role `{Primitives} env d request body backend w tok rt :
  (Login.POST env d request body backend w).1 = Issued tok rt ->
  exists k status agent key,
    body = Login.BodyValid k
    /\ backend k = Login.FetchReply status (Some agent)
    /\ tok = SignJWT (t_iat d) (t_exp d) "RS256"
               (Roles.role_name (Login.role_of env (Login.user_of agent)))
               (Roles.ROLE_PERMISSIONS (Login.role_of env (Login.user_of agent)))
               (Login.user_of agent) (Jwt.issuer_of env) (Jwt.audience_of env) key.
Proof.
  unfold Login.POST.
  destruct (Login.checkRateLimit _ _ _) as [[|] tbl]; cbn [fst negb]; [|discriminate].
  destruct body as [| |k]; try discriminate.
  destruct (backend k) as [|status [a|]] eqn:Eb; try discriminate;
    destruct (status =? 401); try discriminate;
    destruct (Login.ok status); try discriminate.
  cbn [negb]. destruct (Store.createSession _ _ _ _ _) as [rt' st].
  unfold Jwt.signAccessToken. cbn [keys].
  destruct (getPrivateKey env (keys w)) as [[key|] kc]; [|discriminate].
  cbn [fst]. intros [= <- <-]. exists k, status, a, key. auto.
Qed.

(** A user on the administrator list gets the elevated role and its full
    permission set from [role_of]. *)
Lemma role_of_admin env uid :
  includes (Login.adminIds env) uid = true ->
  Roles.role_name (Login.role_of env uid) = "admin"
  /\ Roles.ROLE_PERMISSIONS (Login.role_of env uid)
     = ["read"; "write"; "delete"; "admin"].
Proof.
  intros Hin. unfold Login.role_of. rewrite Hin. split; reflexivity.
Qed.

(** The refresh handler signs every token with the role "agent" and the
    permissions read and write, whoever the session belongs to. *)
Lemma refresh_token_role `{Primitives} env d request w tok rt :
  (Refresh.POST env d request w).1 = Issued tok rt ->
  exists uid key,
    tok = SignJWT (t_iat d) (t_exp d) "RS256" "agent" ["read"; "write"]
            uid (Jwt.issuer_of env) (Jwt.audience_of env) key.
Proof.
  unfold Refresh.POST.
  destruct (cookies request !! "refresh_token") as [c|]; [|discriminate].
  destruct (String.eqb c ""); [discriminate|].
  destruct (Store.consumeSession _ _ _ _ _) as [[r|] st]; [|discriminate].
  unfold Jwt.signAccessToken. cbn [keys].
  destruct (getPrivateKey env (keys w)) as [[key|] kc]; [|discriminate].
  cbn [fst]. intros [= <- <-]. eauto.
Qed.

(** C2 at a concrete input: with "alice" on the administrator list, her
    login yields a token with the role "admin" and its four permissions,
    and the refresh that follows with the session cookie of that login
    yields a token with the role "agent" and the permissions read and
    write only. *)
Theorem refresh_drops_admin_role (P : Primitives) (sk : PrivateKey) :
  let env : Env := {[ "ADMIN_USER_IDS" := "bob, alice" ]} in
  let w0 := {| store := Store.empty_state; loginAttempts := ∅;
               keys := {| privateKey := Some sk; publicKey := None |} |} in
  let login_request := {| method := "POST"; pathname := "/api/auth/login";
                          headers := ∅; cookies := ∅ |} in
  let refresh_request := {| method := "POST"; pathname := "/api/auth/refresh";
                            headers := ∅;
                            cookies := {[ "refresh_token" := "s1" ]} |} in
  let backend := fun _ : string =>
    Login.FetchReply 200
      (Some {| Login.name := Some "alice"; Login.id := None;
               Login.agentId := "undefined" |}) in
  let d1 := {| t_check := 0; t_create := 0; uuid := "s1"; t_iat := 0; t_exp := 0 |} in
  let d2 := {| t_check := 60000; t_create := 60000; uuid := "s2";
               t_iat := 60000; t_exp := 60000 |} in
  let r1 := Login.POST env d1 login_request (Login.BodyValid "key") backend w0 in
  let r2 := Refresh.POST env d2 refresh_request r1.2 in
  includes (Login.adminIds env) "alice" = true
  /\ r1.1 = Issued
              (SignJWT 0 0 "RS256" "admin" ["read"; "write"; "delete"; "admin"]
                 "alice" "moltbook-frontend" "moltbook-api" sk) "s1"
  /\ r2.1 = Issued
              (SignJWT 60000 60000 "RS256" "agent" ["read"; "write"]
                 "alice" "moltbook-frontend" "moltbook-api" sk) "s2".
Proof.
  cbv zeta. split; [reflexivity|]. split; reflexivity.
Qed.

End IssuedRoles.

(* ===================================================================== *)
(** * Properties of the authorization gate *)
(* ===================================================================== *)

Section GateClaims.
Import Jose Http Middleware.

Lemma set_identity_headers (h1 h2 : Headers) (u r : string) :
  same_but_identity h1 h2 ->
  <["x-user-role" := r]> (<["x-user-id" := u]> h1)
  = <["x-user-role" := r]> (<["x-user-id" := u]> h2).
Proof.
  intros H. apply map_eq. intros k.
  destruct (decide (k = "x-user-role")) as [->|Hr].
  - rewrite !lookup_insert_eq. reflexivity.
  - rewrite !(lookup_insert_ne _ "x-user-role") by congruence.
    destruct (decide (k = "x-user-id")) as [->|Hi].
    + rewrite !lookup_insert_eq. reflexivity.
    + rewrite !(lookup_insert_ne _ "x-user-id") by congruence.
      apply H; assumption.
Qed.

Lemma header_value_trimmed v u : header_value v = Some u -> u = rtrim (ltrim v).
Proof.
  unfold header_value. destruct (byte_string v); [|discriminate].
  destruct (existsb _ _); [discriminate|]. intros [= <-]. reflexivity.
Qed.

(** What a protected request that passes went through. *)
Lemma middleware_pass verify r o :
  protected r ->
  disposition (middleware verify r) = Continue o ->
  exists tok p u ro,
    bearer_token (headers r) = Some tok /\ tok <> ""
    /\ verify tok = Some p
    /\ includes (permissions p)
         (Roles.getRequiredPermission (method r) (pathname r)) = true
    /\ header_value (subject_string p) = Some u
    /\ header_value (role p) = Some ro
    /\ middleware verify r
       = addSecurityHeaders
           (next (Some (<["x-user-role" := ro]> (<["x-user-id" := u]> (headers r)))))
    /\ o = Some (<["x-user-role" := ro]> (<["x-user-id" := u]> (headers r))).
Proof.
  intros [Hapi Hpub]. unfold middleware. rewrite Hapi, Hpub. cbn [negb].
  destruct (bearer_token (headers r)) as [tok|]; [|discriminate].
  destruct (String.eqb_spec tok "") as [|Hne]; [discriminate|].
  destruct (verify tok) as [p|] eqn:Ev; [|discriminate].
  destruct (includes _ _) eqn:Ei; cbn [negb]; [|discriminate].
  unfold headers_set.
  destruct (header_value (subject_string p)) as [u|] eqn:Eu; [|discriminate].
  destruct (header_value (role p)) as [ro|] eqn:Er; [|discriminate].
  cbn [addSecurityHeaders next disposition]. intros [= <-].
  exists tok, p, u, ro. auto 10.
Qed.

(** C10, as stated, fails: a token whose subject begins with a space is
    verified and the request passes, but the forwarded [x-user-id] is the
    subject without that space, another identifier. *)
Lemma forwarded_subject_may_differ :
  ~ (forall (verify : string -> option JWTPayload) (r : NextRequest)
            (o : option Headers),
       protected r ->
       disposition (middleware verify r) = Continue o ->
       exists tok p h,
         o = Some h
         /\ bearer_token (headers r) = Some tok
         /\ verify tok = Some p
         /\ h !! "x-user-id" = Some (subject_string p)
         /\ h !! "x-user-role" = Some (role p)).
Proof.
  intros H.
  pose (p0 := {| iss := Some "moltbook-frontend"; sub := Some " alice";
                 aud := Some "moltbook-api"; exp := Some 900; nbf := None;
                 iat := Some 0; role := "agent"; permissions := ["read"; "write"] |}).
  pose (verify := fun tok : string => if String.eqb tok "t1" then Some p0 else None).
  pose (r := {| method := "GET"; pathname := "/api/posts";
                headers := {[ "authorization" := "Bearer t1" ]};
                cookies := ∅ |}).
  destruct (H verify r
              (Some (<["x-user-role" := "agent"]>
                       (<["x-user-id" := "alice"]>
                          {[ "authorization" := "Bearer t1" ]})))
              (conj eq_refl eq_refl) eq_refl)
    as (tok & p & h & Ho & Hb & Hv & Hid & _).
  injection Ho as <-. injection Hb as <-. injection Hv as <-.
  vm_compute in Hid. discriminate Hid.
Qed.

(** C10, amended: when the gate lets a protected request through, the
    request headers it forwards carry as [x-user-id] and [x-user-role] the
    subject and the role of the payload the token verified to, with leading
    and trailing tab, space, CR and LF removed, hence the subject and the
    role themselves when they have none; and on a second request that
    differs from the first only in the values the client gave these two
    headers, the gate gives the same response and forwards the same
    headers. *)
Theorem gate_identity_from_token
    (verifyAccessToken : string -> option JWTPayload)
    (r1 r2 : NextRequest) (o : option Headers) :
  protected r1 ->
  method r2 = method r1 ->
  pathname r2 = pathname r1 ->
  same_but_identity (headers r1) (headers r2) ->
  disposition (middleware verifyAccessToken r1) = Continue o ->
  exists tok p h,
    o = Some h
    /\ bearer_token (headers r1) = Some tok
    /\ verifyAccessToken tok = Some p
    /\ h !! "x-user-id" = Some (rtrim (ltrim (subject_string p)))
    /\ (forall s, sub p = Some s -> rtrim (ltrim s) = s ->
          h !! "x-user-id" = Some s)
    /\ h !! "x-user-role" = Some (rtrim (ltrim (role p)))
    /\ (rtrim (ltrim (role p)) = role p -> h !! "x-user-role" = Some (role p))
    /\ middleware verifyAccessToken r2 = middleware verifyAccessToken r1.
Proof.
  intros Hprot Hm Hp Hh Hd.
  destruct (middleware_pass _ _ _ Hprot Hd)
    as (tok & p & u & ro & Hb & Hne & Hv & Hi & Hu & Hr & Hmw & ->).
  pose proof (header_value_trimmed _ _ Hu) as Eu.
  pose proof (header_value_trimmed _ _ Hr) as Er.
  assert (Hidl : (<["x-user-role" := ro]> (<["x-user-id" := u]> (headers r1)) : Headers)
                 !! "x-user-id" = Some u).
  { rewrite lookup_insert_ne by discriminate. apply lookup_insert_eq. }
  exists tok, p. eexists. split; [reflexivity|].
  split; [exact Hb|]. split; [exact Hv|].
  split; [rewrite <- Eu; exact Hidl|].
  split.
  { intros s Hs Hs'. rewrite Hidl, Eu. unfold subject_string. rewrite Hs.
    change (default "undefined" (Some s)) with s. rewrite Hs'. reflexivity. }
  split; [rewrite <- Er; apply lookup_insert_eq|].
  split.
  { intros Hr'. rewrite lookup_insert_eq, Er, Hr'. reflexivity. }
  rewrite Hmw. destruct Hprot as [Hapi Hpub].
  assert (Hpub2 : isPublicApiRoute r2 = false).
  { unfold isPublicApiRoute in *. rewrite Hm, Hp. exact Hpub. }
  assert (Hb2 : bearer_token (headers r2) = Some tok).
  { unfold bearer_token in *. rewrite <- (Hh "authorization") by discriminate.
    exact Hb. }
  unfold middleware. rewrite Hp, Hm, Hapi, Hpub2, Hb2. cbn [negb].
  apply String.eqb_neq in Hne. rewrite Hne, Hv, Hi. cbn [negb].
  unfold headers_set. rewrite Hu, Hr.
  rewrite (set_identity_headers (headers r1) (headers r2) _ _ Hh). reflexivity.
Qed.

Lemma gate_identity_from_token_witness :
  let verify := fun tok : string =>
    if String.eqb tok "t1" then
      Some {| iss := Some "moltbook-frontend"; sub := Some "alice";
              aud := Some "moltbook-api"; exp := Some 900; nbf := None;
              iat := Some 0; role := "agent"; permissions := ["read"; "write"] |}
    else None in
  let r1 := {| method := "GET"; pathname := "/api/posts";
               headers := <["x-user-id" := "root"]>
                            {[ "authorization" := "Bearer t1" ]};
               cookies := ∅ |} in
  let r2 := {| method := "GET"; pathname := "/api/posts";
               headers := <["x-user-role" := "admin"]>
                            (<["x-user-id" := "mallory"]>
                               {[ "authorization" := "Bearer t1" ]});
               cookies := ∅ |} in
  exists h,
    disposition (middleware verify r1) = Continue (Some h)
    /\ h !! "x-user-id" = Some "alice"
    /\ h !! "x-user-role" = Some "agent"
    /\ middleware verify r2 = middleware verify r1.
Proof.
  cbv zeta.
  eexists. split; [reflexivity|].
  match goal with
  | |- _ /\ _ /\ middleware ?v ?b = middleware ?v ?a =>
      destruct (gate_identity_from_token v a b _
                  (conj eq_refl eq_refl) eq_refl eq_refl
                  ltac:(intros k H1 H2; cbn [headers];
                        rewrite !lookup_insert_ne by congruence; reflexivity)
                  eq_refl)
        as (tok & p & h & Ho & Hb & Hv & Hid & Hsub & Hrole & Hrole' & Heq)
  end.
  injection Ho as <-.
  injection Hb as <-. injection Hv as <-.
  split; [exact (Hsub "alice" eq_refl eq_refl)|].
  split; [exact (Hrole' eq_refl) | exact Heq].
Defined.

End GateClaims.

(* ===================================================================== *)
(** * Further properties of the session store *)
(* ===================================================================== *)

Section StoreLookup.
Import Store.

Lemma first_live_key_None now (m : gmap string Session) ids :
  first_live_key now m ids = None <->
  forall j, j ∈ ids -> live_entry now m j = false.
Proof.
  induction ids as [|i ids IH]; simpl.
  - split; [intros _ j Hj; inversion Hj | reflexivity].
  - unfold live_entry at 1.
    destruct (m !! i) as [s|] eqn:E.
    + destruct (negb (used s) && (now <? expiresAt s)) eqn:L.
      * split; [discriminate|]. intros H. specialize (H i ltac:(left)).
        unfold live_entry in H. rewrite E, L in H. discriminate.
      * rewrite IH. split.
        -- intros H j [->|Hj]%elem_of_cons; [|apply H; exact Hj].
           unfold live_entry. rewrite E. exact L.
        -- intros H j Hj. apply H. right. exact Hj.
    + rewrite IH. split.
      * intros H j [->|Hj]%elem_of_cons; [|apply H; exact Hj].
        unfold live_entry. rewrite E. reflexivity.
      * intros H j Hj. apply H. right. exact Hj.
Qed.

Lemma first_live_key_Some now (m : gmap string Session) ids k :
  first_live_key now m ids = Some k ->
  exists pre id post s,
    ids = (pre ++ id :: post)%list
    /\ (forall j, j ∈ pre -> live_entry now m j = false)
    /\ m !! id = Some s /\ used s = false /\ now < expiresAt s
    /\ k = moltbookApiKey s.
Proof.
  induction ids as [|i ids IH]; simpl; [discriminate|].
  destruct (m !! i) as [s|] eqn:E.
  - destruct (negb (used s) && (now <? expiresAt s)) eqn:L.
    + intros [= <-]. exists [], i, ids, s.
      apply andb_true_iff in L. destruct L as [U T].
      apply negb_true_iff in U. apply Z.ltb_lt in T.
      repeat split; auto. intros j Hj. inversion Hj.
    + intros H. destruct (IH H) as (pre & id & post & s' & -> & Hpre & Hs).
      exists (i :: pre), id, post, s'. split; [reflexivity|]. split; [|exact Hs].
      intros j [->|Hj]%elem_of_cons; [|apply Hpre; exact Hj].
      unfold live_entry. rewrite E. exact L.
  - intros H. destruct (IH H) as (pre & id & post & s' & -> & Hpre & Hs).
    exists (i :: pre), id, post, s'. split; [reflexivity|]. split; [|exact Hs].
    intros j [->|Hj]%elem_of_cons; [|apply Hpre; exact Hj].
    unfold live_entry. rewrite E. reflexivity.
Qed.

(** X1: [getMoltbookKey] returns the key of the first identifier, in the
    order they were added for the user, whose entry is present, unused and
    expires after now; it returns none exactly when the user is unknown or
    has no such identifier. *)
Theorem getMoltbookKey_first_live (now : Z) (uid : string) (st : State) :
  (forall k, getMoltbookKey now uid st = Some k ->
     exists ids pre id post s,
       userSessions st !! uid = Some ids
       /\ ids = (pre ++ id :: post)%list
       /\ (forall j, j ∈ pre -> live_entry now (sessions st) j = false)
       /\ sessions st !! id = Some s /\ used s = false /\ now < expiresAt s
       /\ k = moltbookApiKey s)
  /\ (getMoltbookKey now uid st = None <->
      forall ids, userSessions st !! uid = Some ids ->
        forall j, j ∈ ids -> live_entry now (sessions st) j = false).
Proof.
  unfold getMoltbookKey. destruct (userSessions st !! uid) as [ids|]; split.
  - intros k H. destruct (first_live_key_Some _ _ _ _ H)
      as (pre & id & post & s & ? & ? & ? & ? & ? & ?).
    exists ids, pre, id, post, s. auto 10.
  - rewrite first_live_key_None. split.
    + intros H ids' [= <-]. exact H.
    + intros H. apply H. reflexivity.
  - discriminate.
  - split; [discriminate | reflexivity].
Qed.

End StoreLookup.

Section StoreRotation.
Import Store.

Lemma consumeSession_live now now_c uuid tok st s :
  sessions st !! tok = Some s -> now <= expiresAt s -> used s = false ->
  consumeSession now now_c uuid tok st
  = (Some {| c_moltbookApiKey := moltbookApiKey s; c_userId := userId s;
             newRefreshToken := uuid |},
     (createSession uuid now_c (userId s) (moltbookApiKey s)
        {| sessions := <[tok := mark_used s]> (sessions st);
           userSessions := userSessions st |}).2).
Proof.
  intros E Hle U. unfold consumeSession. rewrite E, U.
  destruct (Z.ltb_spec (expiresAt s) now); [lia | reflexivity].
Qed.

(** X2: the identifier [createSession] returns can be consumed at any time
    up to seven days after its creation, yielding the user and the key it
    was created with; the identifier that consumption returns can in turn
    be consumed up to seven days after the rotation, with the same user and
    key. *)
Theorem session_rotation_chain
    (st : State) (uuid : string) (now : Z) (uid key : string)
    (now1 nc1 : Z) (u1 : string) :
  now1 <= now + SESSION_TTL_MS ->
  exists st2,
    consumeSession now1 nc1 u1 (createSession uuid now uid key st).1
      (createSession uuid now uid key st).2
    = (Some {| c_moltbookApiKey := key; c_userId := uid; newRefreshToken := u1 |},
       st2)
    /\ forall now2 nc2 u2, now2 <= nc1 + SESSION_TTL_MS ->
         (consumeSession now2 nc2 u2 u1 st2).1
         = Some {| c_moltbookApiKey := key; c_userId := uid;
                   newRefreshToken := u2 |}.
Proof.
  intros H1.
  pose (s0 := {| moltbookApiKey := key; userId := uid;
                 expiresAt := now + SESSION_TTL_MS; used := false |}).
  pose (s1 := {| moltbookApiKey := key; userId := uid;
                 expiresAt := nc1 + SESSION_TTL_MS; used := false |}).
  assert (E0 : sessions (createSession uuid now uid key st).2 !! uuid = Some s0)
    by apply lookup_insert_eq.
  cbn [fst createSession].
  rewrite (consumeSession_live now1 nc1 u1 uuid _ s0 E0 H1 eq_refl).
  eexists. split; [reflexivity|].
  intros now2 nc2 u2 H2.
  rewrite (consumeSession_live now2 nc2 u2 u1 _ s1 (lookup_insert_eq _ _ _) H2 eq_refl).
  reflexivity.
Qed.

Lemma session_rotation_chain_witness :
  exists st2,
    consumeSession 604800000 604800000 "b" "a"
      (createSession "a" 0 "u" "k" empty_state).2
    = (Some {| c_moltbookApiKey := "k"; c_userId := "u"; newRefreshToken := "b" |},
       st2)
    /\ forall now2 nc2 u2, now2 <= 604800000 + SESSION_TTL_MS ->
         (consumeSession now2 nc2 u2 "b" st2).1
         = Some {| c_moltbookApiKey := "k"; c_userId := "u";
                   newRefreshToken := u2 |}.
Proof.
  apply (session_rotation_chain empty_state "a" 0 "u" "k" 604800000 604800000 "b").
  vm_compute. discriminate.
Defined.

(** X3: an unused session whose expiry time equals the current time is
    still consumed by [consumeSession], while [getMoltbookKey] at that same
    time no longer returns its key. *)
Theorem expiry_instant_consume_not_lookup
    (st : State) (id : string) (s : Session) (now_c : Z) (uuid : string) :
  sessions st !! id = Some s ->
  used s = false ->
  userSessions st !! userId s = Some [id] ->
  (consumeSession (expiresAt s) now_c uuid id st).1
  = Some {| c_moltbookApiKey := moltbookApiKey s; c_userId := userId s;
            newRefreshToken := uuid |}
  /\ getMoltbookKey (expiresAt s) (userId s) st = None.
Proof.
  intros E U I. split.
  - rewrite (consumeSession_live _ _ _ _ _ s E (Z.le_refl _) U). reflexivity.
  - unfold getMoltbookKey. rewrite I. simpl. rewrite E, U, Z.ltb_irrefl. reflexivity.
Qed.

Lemma expiry_instant_consume_not_lookup_witness :
  (consumeSession 604800000 604800000 "b" "a"
     (createSession "a" 0 "u" "k" empty_state).2).1
  = Some {| c_moltbookApiKey := "k"; c_userId := "u"; newRefreshToken := "b" |}
  /\ getMoltbookKey 604800000 "u" (createSession "a" 0 "u" "k" empty_state).2 = None.
Proof.
  apply (expiry_instant_consume_not_lookup
           (createSession "a" 0 "u" "k" empty_state).2 "a"
           {| moltbookApiKey := "k"; userId := "u";
              expiresAt := 604800000; used := false |} 604800000 "b").
  - reflexivity.
  - reflexivity.
  - reflexivity.
Defined.

End StoreRotation.

Section StoreIndex.
Import Store.

Lemma set_add_elem (i j : string) (l : list string) :
  j ∈ set_add i l <-> j = i \/ j ∈ l.
Proof.
  unfold set_add. destruct (bool_decide (i ∈ l)) eqn:E.
  - apply bool_decide_eq_true_1 in E. split; [auto|]. intros [->|?]; assumption.
  - rewrite elem_of_app, list_elem_of_singleton. tauto.
Qed.

Lemma createSession_indexed uuid now uid key st :
  indexed st -> indexed (createSession uuid now uid key st).2.
Proof.
  intros Hi id s. cbn [createSession snd sessions userSessions].
  set (users1 := match userSessions st !! uid with
                 | Some _ => userSessions st
                 | None => <[uid := []]> (userSessions st)
                 end).
  assert (Hu : exists l, users1 !! uid = Some l).
  { subst users1. destruct (userSessions st !! uid) as [l|] eqn:E.
    - exists l. exact E.
    - exists []. apply lookup_insert_eq. }
  destruct Hu as [l Hl].
  destruct (decide (id = uuid)) as [->|Hne].
  - rewrite lookup_insert_eq. intros [= <-]. cbn [userId].
    rewrite lookup_alter_eq, Hl. eexists. split; [reflexivity|].
    apply set_add_elem. left. reflexivity.
  - rewrite lookup_insert_ne by congruence. intros Hs.
    destruct (Hi id s Hs) as (ids & Hids & Hin).
    destruct (decide (userId s = uid)) as [Hu|Hu].
    + rewrite Hu in *. rewrite lookup_alter_eq.
      assert (l = ids).
      { subst users1. rewrite Hids in Hl. congruence. }
      subst l. rewrite Hl. eexists. split; [reflexivity|].
      apply set_add_elem. right. exact Hin.
    + rewrite lookup_alter_ne by congruence.
      exists ids. split; [|exact Hin].
      subst users1. destruct (userSessions st !! uid); [exact Hids|].
      rewrite lookup_insert_ne by congruence. exact Hids.
Qed.

Lemma step_indexed op st : indexed st -> indexed (step op st).2.
Proof.
  intros Hi. destruct op as [u n uid k|n nc u tok|n uid|uid|n]; simpl.
  - apply createSession_indexed. exact Hi.
  - destruct (consumeSession_cases n nc u tok st) as [?|s E ?|s ? ? ?|s E ? U];
      cbn [snd]; try exact Hi.
    + intros id s'. cbn [sessions userSessions].
      destruct (decide (tok = id)) as [->|Hne].
      * rewrite lookup_delete_eq. discriminate.
      * rewrite lookup_delete_ne by exact Hne. apply Hi.
    + apply createSession_indexed.
      intros id s'. cbn [sessions userSessions].
      destruct (decide (tok = id)) as [->|Hne].
      * rewrite lookup_insert_eq. intros [= <-]. apply (Hi id s E).
      * rewrite lookup_insert_ne by exact Hne. apply Hi.
  - exact Hi.
  - unfold invalidateUser. destruct (userSessions st !! uid) as [ids0|] eqn:E0; [|exact Hi].
    intros id s. cbn [sessions userSessions]. rewrite foldl_delete_lookup.
    destruct (bool_decide (id ∈ ids0)) eqn:B; [discriminate|].
    apply bool_decide_eq_false_1 in B. intros Hs.
    destruct (Hi id s Hs) as (ids & Hids & Hin).
    destruct (decide (userId s = uid)) as [Hu|Hu].
    + rewrite Hu, E0 in Hids. injection Hids as <-. contradiction.
    + exists ids. rewrite lookup_delete_ne by congruence. auto.
  - intros id s. rewrite pruneExpired_lookup.
    destruct (sessions st !! id) as [s0|] eqn:E; [|discriminate].
    destruct (prunable n s0) eqn:P; [discriminate|]. intros [= <-].
    destruct (Hi id s0 E) as (ids & Hids & Hin).
    rewrite pruneExpired_users, Hids. eexists. split; [reflexivity|].
    apply list_elem_of_filter. split; [|exact Hin].
    unfold kept, swept. rewrite E, P. reflexivity.
Qed.

Lemma run_indexed ops : forall st, indexed st -> indexed (run ops st).2.
Proof.
  induction ops as [|op ops IH]; intros st Hi; simpl; [exact Hi|].
  pose proof (step_indexed op st Hi) as H1.
  destruct (step op st) as [r st1]. simpl in H1.
  specialize (IH st1 H1). destruct (run ops st1) as [rs st2]. exact IH.
Qed.

Lemma empty_indexed : indexed empty_state.
Proof. intros id s. simpl. rewrite lookup_empty. discriminate. Qed.

(** X4: after any history of store operations from the empty store,
    [invalidateUser(u)] leaves no session owned by [u] in the table: none
    of them can be consumed any more and [getMoltbookKey(u)] returns none;
    entries whose identifier was not listed under [u] are as before. *)
Theorem invalidateUser_removes_all (ops : list Op) (uid : string) :
  let st := (run ops empty_state).2 in
  let st' := invalidateUser uid st in
  (forall id s, sessions st' !! id = Some s -> userId s <> uid)
  /\ (forall id s now now_c uuid,
        sessions st !! id = Some s -> userId s = uid ->
        (consumeSession now now_c uuid id st').1 = None)
  /\ (forall now, getMoltbookKey now uid st' = None)
  /\ (forall id, (forall ids, userSessions st !! uid = Some ids -> id ∉ ids) ->
        sessions st' !! id = sessions st !! id).
Proof.
  cbv zeta. set (st := (run ops empty_state).2).
  assert (Hi : indexed st) by (apply run_indexed, empty_indexed).
  assert (Hgone : forall id s, sessions st !! id = Some s -> userId s = uid ->
                    sessions (invalidateUser uid st) !! id = None).
  { intros id s Hs Hu. destruct (Hi id s Hs) as (ids & Hids & Hin).
    unfold invalidateUser. rewrite Hu in Hids. rewrite Hids. cbn [sessions].
    rewrite foldl_delete_lookup.
    rewrite (bool_decide_eq_true_2 _ Hin). reflexivity. }
  split; [|split; [|split]].
  - intros id s Hs' Hu.
    destruct (invalidateUser_lookup uid st id) as [H|H]; [congruence|].
    rewrite H in Hs'. rewrite (Hgone id s Hs' Hu) in H. congruence.
  - intros id s now now_c uuid Hs Hu.
    unfold consumeSession. rewrite (Hgone id s Hs Hu). reflexivity.
  - intros now. unfold getMoltbookKey, invalidateUser.
    destruct (userSessions st !! uid) as [ids|] eqn:E.
    + cbn [userSessions]. rewrite lookup_delete_eq. reflexivity.
    + rewrite E. reflexivity.
  - intros id Hid. unfold invalidateUser.
    destruct (userSessions st !! uid) as [ids|] eqn:E; [|reflexivity].
    cbn [sessions]. rewrite foldl_delete_lookup.
    rewrite (bool_decide_eq_false_2 _ (Hid ids eq_refl)). reflexivity.
Qed.

End StoreIndex.

Section StoreSweep.
Import Store.

Lemma state_eq (a b : State) :
  sessions a = sessions b -> userSessions a = userSessions b -> a = b.
Proof. destruct a, b. simpl. intros -> ->. reflexivity. Qed.

Lemma prunable_not_live now' now s :
  now' <= now -> prunable now' s = true ->
  negb (used s) && (now <? expiresAt s) = false.
Proof.
  intros Hle P. unfold prunable in P. apply orb_true_iff in P.
  destruct P as [P|P].
  - apply Z.ltb_lt in P. destruct (Z.ltb_spec now (expiresAt s)); [lia|].
    apply andb_false_r.
  - rewrite P. reflexivity.
Qed.

Lemma sweep_first_live_key now' now st u ids :
  now' <= now ->
  first_live_key now (sessions (pruneExpired now' st))
    (filter (kept now' (sessions st) u) ids)
  = first_live_key now (sessions st) ids.
Proof.
  intros Hle. induction ids as [|i ids IH]; [reflexivity|].
  rewrite filter_cons. cbn [first_live_key].
  destruct (decide (kept now' (sessions st) u i)) as [K|K].
  - cbn [first_live_key]. rewrite pruneExpired_lookup.
    destruct (sessions st !! i) as [s|] eqn:E; [|exact IH].
    destruct (prunable now' s) eqn:P.
    + rewrite (prunable_not_live now' now s Hle P). exact IH.
    + destruct (negb (used s) && (now <? expiresAt s)); [reflexivity | exact IH].
  - unfold kept, swept in K.
    destruct (sessions st !! i) as [s|] eqn:E; [|contradiction].
    destruct (prunable now' s) eqn:P; [|contradiction].
    rewrite (prunable_not_live now' now s Hle P). exact IH.
Qed.

(** X5: a sweep is invisible to later readers: for a sweep at a time not
    after the reader's clock, [getMoltbookKey] returns the same key and
    [consumeSession] the same result on the swept store as on the store
    before the sweep. *)
Theorem sweep_transparent
    (now' now now_c : Z) (uid uuid id : string) (st : State) :
  now' <= now ->
  getMoltbookKey now uid (pruneExpired now' st) = getMoltbookKey now uid st
  /\ (consumeSession now now_c uuid id (pruneExpired now' st)).1
     = (consumeSession now now_c uuid id st).1.
Proof.
  intros Hle. split.
  - unfold getMoltbookKey. rewrite pruneExpired_users.
    destruct (userSessions st !! uid) as [ids|]; [|reflexivity].
    cbn [fmap option_fmap option_map]. apply sweep_first_live_key. exact Hle.
  - unfold consumeSession at 1. rewrite pruneExpired_lookup.
    destruct (consumeSession_cases now now_c uuid id st) as [E|s E ?|s E ? U|s E ? U];
      rewrite E; cbn [fst].
    + reflexivity.
    + destruct (prunable now' s); [reflexivity|].
      destruct (Z.ltb_spec (expiresAt s) now); [reflexivity | lia].
    + destruct (prunable now' s); [reflexivity|].
      destruct (Z.ltb_spec (expiresAt s) now); [reflexivity|].
      rewrite U. reflexivity.
    + assert (P : prunable now' s = false).
      { unfold prunable. rewrite U, orb_false_r. apply Z.ltb_ge. lia. }
      rewrite P. destruct (Z.ltb_spec (expiresAt s) now); [lia|].
      rewrite U. reflexivity.
Qed.

Lemma sweep_transparent_witness :
  let st := (consumeSession 5 5 "b" "a" (createSession "a" 0 "u" "k" empty_state).2).2 in
  getMoltbookKey 20 "u" (pruneExpired 10 st) = getMoltbookKey 20 "u" st
  /\ (consumeSession 20 20 "c" "b" (pruneExpired 10 st)).1
     = (consumeSession 20 20 "c" "b" st).1.
Proof.
  cbv zeta. apply sweep_transparent. lia.
Defined.

(** X6: after the sweep every remaining entry is one the store had before,
    is unused and does not expire before the time of the sweep; sweeping
    again at the same time changes nothing. *)
Theorem sweep_leaves_live_entries (now : Z) (st : State) :
  (forall id s, sessions (pruneExpired now st) !! id = Some s ->
     sessions st !! id = Some s /\ used s = false /\ now <= expiresAt s)
  /\ pruneExpired now (pruneExpired now st) = pruneExpired now st.
Proof.
  assert (Hkeep : forall id s, sessions (pruneExpired now st) !! id = Some s ->
            sessions st !! id = Some s /\ prunable now s = false).
  { intros id s. rewrite pruneExpired_lookup.
    destruct (sessions st !! id) as [s0|]; [|discriminate].
    destruct (prunable now s0) eqn:P; [discriminate|]. intros [= <-]. auto. }
  split.
  - intros id s H. destruct (Hkeep id s H) as [H1 P]. split; [exact H1|].
    unfold prunable in P. apply orb_false_iff in P. destruct P as [P U].
    apply Z.ltb_ge in P. auto.
  - apply state_eq.
    + apply map_eq. intros id. rewrite pruneExpired_lookup.
      destruct (sessions (pruneExpired now st) !! id) as [s|] eqn:E; [|reflexivity].
      destruct (Hkeep id s E) as [_ ->]. reflexivity.
    + apply map_eq. intros u. rewrite pruneExpired_users.
      destruct (userSessions (pruneExpired now st) !! u) as [l|]; [|reflexivity].
      cbn [fmap option_fmap option_map]. f_equal. apply filter_all.
      intros id. unfold kept, swept.
      destruct (sessions (pruneExpired now st) !! id) as [s|] eqn:E; [|reflexivity].
      destruct (Hkeep id s E) as [_ ->]. reflexivity.
Qed.

End StoreSweep.

(* ===================================================================== *)
(** * Further properties of the key provider and the token service *)
(* ===================================================================== *)

Section KeyCache.
Import Jose Keys Jwt.

(** X7: once [getPrivateKey] has returned a key, every later call returns
    that same key and leaves the cache as it is, whatever the environment
    holds by then; loading the private key does not touch the cached public
    key. *)
Theorem getPrivateKey_sticky
    (P : Primitives) (env : Env) (c c1 : Cache) (k : PrivateKey) :
  getPrivateKey env c = (Some k, c1) ->
  (forall env', getPrivateKey env' c1 = (Some k, c1))
  /\ privateKey c1 = Some k
  /\ publicKey c1 = publicKey c.
Proof.
  unfold getPrivateKey. intros H.
  assert (Hc1 : privateKey c1 = Some k /\ publicKey c1 = publicKey c).
  { destruct (privateKey c) as [k0|] eqn:E.
    - injection H as <- <-. auto.
    - destruct (env !! "JWT_PRIVATE_KEY") as [b|]; [|discriminate].
      destruct (String.eqb b ""); [discriminate|].
      destruct (importPKCS8 _ _); [|discriminate].
      injection H as <- <-. auto. }
  destruct Hc1 as [H1 H2]. split; [|auto].
  intros env'. rewrite H1. reflexivity.
Qed.

Lemma getPrivateKey_sticky_witness :
  @getPrivateKey toy_primitives ∅
    (@getPrivateKey toy_primitives {[ "JWT_PRIVATE_KEY" := "cHJpdg==" ]}
       empty_cache).2
  = (Some 7%nat, (@Build_Cache toy_primitives (Some 7%nat) None)).
Proof.
  assert (H : @getPrivateKey toy_primitives {[ "JWT_PRIVATE_KEY" := "cHJpdg==" ]}
                 empty_cache
              = (Some 7%nat, @Build_Cache toy_primitives (Some 7%nat) None))
    by reflexivity.
  exact (proj1 (getPrivateKey_sticky toy_primitives _ _ _ _ H) ∅).
Defined.

(** X8: once [getPublicKey] has returned a key, every later call returns
    that same key and leaves the cache as it is, whatever the environment
    holds by then; loading the public key does not touch the cached private
    key. *)
Theorem getPublicKey_sticky
    (P : Primitives) (env : Env) (c c1 : Cache) (k : PublicKey) :
  getPublicKey env c = (Some k, c1) ->
  (forall env', getPublicKey env' c1 = (Some k, c1))
  /\ publicKey c1 = Some k
  /\ privateKey c1 = privateKey c.
Proof.
  unfold getPublicKey. intros H.
  assert (Hc1 : publicKey c1 = Some k /\ privateKey c1 = privateKey c).
  { destruct (publicKey c) as [k0|] eqn:E.
    - injection H as <- <-. auto.
    - destruct (env !! "JWT_PUBLIC_KEY") as [b|]; [|discriminate].
      destruct (String.eqb b ""); [discriminate|].
      destruct (importSPKI _ _); [|discriminate].
      injection H as <- <-. auto. }
  destruct Hc1 as [H1 H2]. split; [|auto].
  intros env'. rewrite H1. reflexivity.
Qed.

Lemma getPublicKey_sticky_witness :
  @getPublicKey toy_primitives ∅
    (@getPublicKey toy_primitives {[ "JWT_PUBLIC_KEY" := "cHVi" ]}
       empty_cache).2
  = (Some 7%nat, (@Build_Cache toy_primitives None (Some 7%nat))).
Proof.
  assert (H : @getPublicKey toy_primitives {[ "JWT_PUBLIC_KEY" := "cHVi" ]}
                 empty_cache
              = (Some 7%nat, @Build_Cache toy_primitives None (Some 7%nat)))
    by reflexivity.
  exact (proj1 (getPublicKey_sticky toy_primitives _ _ _ _ H) ∅).
Defined.

(** X9: a failed [getPrivateKey] caches nothing: the cache is as before,
    and a later call under an environment whose variable is set, non-empty
    and importable returns the imported key and caches it. *)
Theorem getPrivateKey_failure_not_cached
    (P : Primitives) (env : Env) (c c1 : Cache) :
  getPrivateKey env c = (None, c1) ->
  c1 = c
  /\ forall env' b64 k,
       env' !! "JWT_PRIVATE_KEY" = Some b64 -> b64 <> "" ->
       importPKCS8 (base64_utf8 b64) "RS256" = Some k ->
       getPrivateKey env' c1
       = (Some k, {| privateKey := Some k; publicKey := publicKey c |}).
Proof.
  unfold getPrivateKey. intros H.
  destruct (privateKey c) as [k0|] eqn:E; [discriminate|].
  assert (c1 = c).
  { destruct (env !! "JWT_PRIVATE_KEY") as [b|]; [|congruence].
    destruct (String.eqb b ""); [congruence|].
    destruct (importPKCS8 _ _); [discriminate | congruence]. }
  subst c1. split; [reflexivity|].
  intros env' b64 k Hb Hne Hk. rewrite E, Hb.
  apply String.eqb_neq in Hne. rewrite Hne, Hk. reflexivity.
Qed.

Lemma getPrivateKey_failure_not_cached_witness :
  @getPrivateKey toy_primitives {[ "JWT_PRIVATE_KEY" := "cHJpdg==" ]} empty_cache
  = (Some 7%nat, (@Build_Cache toy_primitives (Some 7%nat) None)).
Proof.
  assert (H : @getPrivateKey toy_primitives {[ "JWT_PRIVATE_KEY" := "" ]} empty_cache
              = (None, empty_cache)) by reflexivity.
  apply (proj2 (getPrivateKey_failure_not_cached toy_primitives _ _ _ H)
           {[ "JWT_PRIVATE_KEY" := "cHJpdg==" ]} "cHJpdg==" 7%nat).
  - reflexivity.
  - discriminate.
  - reflexivity.
Defined.

End KeyCache.

Section TokenRejection.
Import Jose Keys Jwt.

Lemma signAccessToken_token `{Primitives} env now_iat now_exp p c tok c1 :
  signAccessToken env now_iat now_exp p c = (Some tok, c1) ->
  exists key,
    tok = SignJWT now_iat now_exp "RS256" (in_role p) (in_permissions p)
            (in_sub p) (issuer_of env) (audience_of env) key.
Proof.
  unfold signAccessToken.
  destruct (getPrivateKey env c) as [[key|] c2]; [|discriminate].
  intros [= <- <-]. eauto.
Qed.

Lemma verify_claims `{P : Primitives} `{!Lawful P} env now c a pl sg :
  claims_ok now (issuer_of env) (audience_of env) pl = false ->
  (verifyAccessToken env now
     (compact {| alg := a; payload := pl; signature := sg |}) c).1 = None.
Proof.
  intros H. unfold verifyAccessToken.
  destruct (getPublicKey env c) as [[pk|] c1]; [|reflexivity].
  cbn [fst]. unfold jwtVerify. rewrite parse_compact. cbn [alg payload signature].
  rewrite H, andb_false_r. reflexivity.
Qed.

(** X10: a token built by [signAccessToken] is rejected by
    [verifyAccessToken] at every clock reading whose second is at or after
    the token's expiry (900 seconds after the second of issue), whatever
    keys and configuration the verifier has. *)
Theorem verify_rejects_expired
    (P : Primitives) (L : Lawful P) (env env' : Env) (c c1 c' : Cache)
    (p : SignInput) (now_iat now_exp now : Z) (tok : Token) :
  signAccessToken env now_iat now_exp p c = (Some tok, c1) ->
  epoch now_exp + 900 <= epoch now ->
  (verifyAccessToken env' now tok c').1 = None.
Proof.
  intros Hs Hexp. destruct (signAccessToken_token _ _ _ _ _ _ _ Hs) as [key ->].
  unfold SignJWT. apply verify_claims.
  unfold claims_ok. cbn [iss aud nbf exp].
  destruct (Z.ltb_spec (epoch now) (epoch now_exp + 900)); [lia|].
  apply andb_false_r.
Qed.

Lemma verify_rejects_expired_witness :
  match (@signAccessToken toy_primitives {[ "JWT_PRIVATE_KEY" := "cHJpdg==" ]} 0 0
           {| in_sub := "alice"; in_role := "agent"; in_permissions := ["read"] |}
           empty_cache).1 with
  | Some tok =>
      (@verifyAccessToken toy_primitives {[ "JWT_PUBLIC_KEY" := "cHVi" ]}
         900000 tok empty_cache).1 = None
  | None => False
  end.
Proof.
  destruct (@signAccessToken toy_primitives {[ "JWT_PRIVATE_KEY" := "cHJpdg==" ]} 0 0
              {| in_sub := "alice"; in_role := "agent"; in_permissions := ["read"] |}
              empty_cache) as [[tok|] c1] eqn:H; cbn [fst].
  - apply (verify_rejects_expired toy_primitives toy_lawful _ _ _ _ _ _ _ _ _ _ H).
    vm_compute. discriminate.
  - vm_compute in H. discriminate H.
Defined.

(** X11: a token is rejected by a verifier whose configured issuer is
    non-empty and differs from the issuer the token was signed under, and
    likewise for the audience. *)
Theorem verify_rejects_other_issuer_or_audience
    (P : Primitives) (L : Lawful P) (env env' : Env) (c c1 c' : Cache)
    (p : SignInput) (now_iat now_exp now : Z) (tok : Token) :
  signAccessToken env now_iat now_exp p c = (Some tok, c1) ->
  (issuer_of env' <> "" /\ issuer_of env' <> issuer_of env)
  \/ (audience_of env' <> "" /\ audience_of env' <> audience_of env) ->
  (verifyAccessToken env' now tok c').1 = None.
Proof.
  intros Hs Hd. destruct (signAccessToken_token _ _ _ _ _ _ _ Hs) as [key ->].
  unfold SignJWT. apply verify_claims.
  unfold claims_ok. cbn [iss aud nbf exp].
  destruct Hd as [[Hne Hd] | [Hne Hd]].
  - apply String.eqb_neq in Hne. rewrite Hne.
    assert (E : String.eqb (issuer_of env) (issuer_of env') = false)
      by (apply String.eqb_neq; congruence).
    rewrite E. reflexivity.
  - apply String.eqb_neq in Hne. rewrite Hne.
    assert (E : String.eqb (audience_of env) (audience_of env') = false)
      by (apply String.eqb_neq; congruence).
    rewrite E. cbn [orb]. rewrite andb_false_r. reflexivity.
Qed.

Lemma verify_rejects_other_issuer_or_audience_witness :
  match (@signAccessToken toy_primitives {[ "JWT_PRIVATE_KEY" := "cHJpdg==" ]} 0 0
           {| in_sub := "alice"; in_role := "agent"; in_permissions := ["read"] |}
           empty_cache).1 with
  | Some tok =>
      (@verifyAccessToken toy_primitives
         {[ "JWT_PUBLIC_KEY" := "cHVi"; "JWT_ISSUER" := "staging" ]}
         1000 tok empty_cache).1 = None
  | None => False
  end.
Proof.
  destruct (@signAccessToken toy_primitives {[ "JWT_PRIVATE_KEY" := "cHJpdg==" ]} 0 0
              {| in_sub := "alice"; in_role := "agent"; in_permissions := ["read"] |}
              empty_cache) as [[tok|] c1] eqn:H; cbn [fst].
  - apply (verify_rejects_other_issuer_or_audience toy_primitives toy_lawful
             _ _ _ _ _ _ _ _ _ _ H).
    left. split; vm_compute; discriminate.
  - vm_compute in H. discriminate H.
Defined.

End TokenRejection.

(* ===================================================================== *)
(** * Further properties of the login rate limiter *)
(* ===================================================================== *)

Section LimiterMore.
Import Process Login.

Lemma checkRateLimit_bounds t ip (tbl : gmap string Attempt) :
  (forall k e, tbl !! k = Some e -> 1 <= count e <= RATE_LIMIT) ->
  forall k e, (checkRateLimit t ip tbl).2 !! k = Some e ->
    1 <= count e <= RATE_LIMIT.
Proof.
  intros Hb k e. unfold checkRateLimit. cbv zeta.
  assert (Hfresh : <[ip := {| count := 1; windowStart := t |}]> tbl !! k = Some e ->
                   1 <= count e <= RATE_LIMIT).
  { destruct (decide (ip = k)) as [->|Hne].
    - rewrite lookup_insert_eq. intros [= <-]. unfold RATE_LIMIT. simpl. lia.
    - rewrite lookup_insert_ne by exact Hne. apply Hb. }
  destruct (tbl !! ip) as [e0|] eqn:E; [|exact Hfresh].
  destruct (RATE_WINDOW_MS <? t - windowStart e0); [exact Hfresh|].
  destruct (Z.leb_spec RATE_LIMIT (count e0)); cbn [snd]; [apply Hb|].
  destruct (decide (ip = k)) as [->|Hne].
  - rewrite lookup_insert_eq. intros [= <-]. cbn [count].
    specialize (Hb k e0 E). lia.
  - rewrite lookup_insert_ne by exact Hne. apply Hb.
Qed.

Lemma serve_bounds evs : forall tbl : gmap string Attempt,
  (forall k e, tbl !! k = Some e -> 1 <= count e <= RATE_LIMIT) ->
  forall k e, (serve evs tbl).2 !! k = Some e -> 1 <= count e <= RATE_LIMIT.
Proof.
  induction evs as [|[ip t] evs IH]; intros tbl Hb; [exact Hb|].
  cbn [serve].
  pose proof (checkRateLimit_bounds t ip tbl Hb) as H1.
  destruct (checkRateLimit t ip tbl) as [b tbl1]. cbn [snd] in H1.
  specialize (IH tbl1 H1). destruct (serve evs tbl1) as [bs tbl2]. exact IH.
Qed.

(** X12: whatever calls the limiter has served since the table was empty,
    every counter in the table lies between 1 and the limit of 10; and a
    call that is rejected leaves the table exactly as it was. *)
Theorem limiter_counters_bounded (evs : list (string * Z)) :
  (forall ip e, (serve evs ∅).2 !! ip = Some e -> 1 <= count e <= 10)
  /\ (forall t ip (tbl : gmap string Attempt),
        (checkRateLimit t ip tbl).1 = false -> (checkRateLimit t ip tbl).2 = tbl).
Proof.
  split.
  - apply serve_bounds. intros k e. rewrite lookup_empty. discriminate.
  - intros t ip tbl. unfold checkRateLimit. cbv zeta.
    destruct (tbl !! ip) as [e|]; [|discriminate].
    destruct (RATE_WINDOW_MS <? t - windowStart e); [discriminate|].
    destruct (RATE_LIMIT <=? count e); [reflexivity | discriminate].
Qed.

Lemma attempts_saturated ip t0 ts : forall tbl : gmap string Attempt,
  tbl !! ip = Some {| count := RATE_LIMIT; windowStart := t0 |} ->
  Forall (fun t => t - t0 <= RATE_WINDOW_MS) ts ->
  attempts ip ts tbl = (List.repeat false (length ts), tbl).
Proof.
  induction ts as [|t ts IH]; intros tbl Hl Hall; [reflexivity|].
  inversion Hall as [|? ? Ht Hrest]; subst.
  assert (Hstep : checkRateLimit t ip tbl = (false, tbl)).
  { unfold checkRateLimit. rewrite Hl. cbn [windowStart count].
    destruct (Z.ltb_spec RATE_WINDOW_MS (t - t0)); [lia | reflexivity]. }
  cbn [attempts]. rewrite Hstep, (IH tbl Hl Hrest). reflexivity.
Qed.

(** X13: from the attempt that opens a window (no entry, or an entry older
    than the window) on, however many attempts follow within the window,
    the first ten attempts are admitted and every one after them is
    rejected. *)
Theorem window_admits_at_most_limit
    (ip : string) (tbl : gmap string Attempt) (t0 : Z) (ts : list Z) :
  (tbl !! ip = None
   \/ exists e, tbl !! ip = Some e /\ RATE_WINDOW_MS < t0 - windowStart e) ->
  Forall (fun t => t - t0 <= RATE_WINDOW_MS) ts ->
  (attempts ip (t0 :: ts) tbl).1
  = (List.repeat true (Nat.min (S (length ts)) 10)
     ++ List.repeat false (S (length ts) - 10))%list.
Proof.
  intros Hopen Hts.
  set (tbl1 := <[ip := {| count := 1; windowStart := t0 |}]> tbl).
  assert (H0 : checkRateLimit t0 ip tbl = (true, tbl1)).
  { unfold checkRateLimit. destruct Hopen as [-> | (e & -> & He)]; [reflexivity|].
    destruct (Z.ltb_spec RATE_WINDOW_MS (t0 - windowStart e)); [reflexivity | lia]. }
  cbn [attempts]. rewrite H0.
  rewrite <- (firstn_skipn 9 ts) at 1. rewrite attempts_app.
  assert (Hf : Forall (fun t => t - t0 <= RATE_WINDOW_MS) (firstn 9 ts)).
  { apply Forall_take. exact Hts. }
  assert (Hs : Forall (fun t => t - t0 <= RATE_WINDOW_MS) (skipn 9 ts)).
  { apply Forall_drop. exact Hts. }
  assert (Hlen : (length (firstn 9 ts) <= 9)%nat) by apply firstn_le_length.
  destruct (attempts_within_window ip t0 (firstn 9 ts) 1 tbl1) as [Hbs Htbl].
  { apply lookup_insert_eq. }
  { exact Hf. }
  { unfold RATE_LIMIT. lia. }
  destruct (attempts ip (firstn 9 ts) tbl1) as [bs tbl2]. cbn [fst snd] in *.
  subst bs.
  destruct (le_lt_dec (length ts) 9) as [Hshort|Hlong].
  - rewrite (firstn_all2 ts Hshort) in *.
    rewrite (skipn_all2 ts Hshort). cbn [attempts fst].
    replace (Nat.min (S (length ts)) 10) with (S (length ts)) by lia.
    replace (S (length ts) - 10)%nat with O by lia.
    reflexivity.
  - assert (L9 : length (firstn 9 ts) = 9%nat) by (rewrite length_firstn; lia).
    rewrite L9 in Htbl |- *.
    rewrite (attempts_saturated ip t0 (skipn 9 ts) tbl2 Htbl Hs). cbn [fst].
    rewrite length_skipn.
    replace (Nat.min (S (length ts)) 10) with 10%nat by lia.
    replace (S (length ts) - 10)%nat with (length ts - 9)%nat by lia.
    reflexivity.
Qed.

Lemma window_admits_at_most_limit_witness :
  (attempts "10.0.0.1" [0; 1; 2; 3; 4; 5; 6; 7; 8; 9; 10; 11; 900000] ∅).1
  = [true; true; true; true; true; true; true; true; true; true;
     false; false; false].
Proof.
  apply (window_admits_at_most_limit "10.0.0.1" ∅ 0
           [1; 2; 3; 4; 5; 6; 7; 8; 9; 10; 11; 900000]).
  - left. reflexivity.
  - repeat constructor; unfold RATE_WINDOW_MS; lia.
Defined.

(** X14: the verdicts a source receives are those it would receive if no
    other source had called; in particular a source that has no entry and
    has not called yet is admitted, however many calls other sources have
    made. *)
Theorem limiter_sources_independent
    (ip : string) (evs : list (string * Z)) (tbl : gmap string Attempt) :
  of_source ip (serve evs tbl).1 = (attempts ip (of_source ip evs) tbl).1
  /\ (tbl !! ip = None -> of_source ip evs = [] ->
      forall t, (checkRateLimit t ip (serve evs tbl).2).1 = true).
Proof.
  split; [apply serve_of_source; reflexivity|].
  intros Hnone Hno t.
  assert (Hl : (serve evs tbl).2 !! ip = None).
  { clear t. revert tbl Hnone. induction evs as [|[ip' t'] evs IH]; intros tbl Hnone;
      [exact Hnone|].
    unfold of_source in Hno. cbn [List.filter fst] in Hno.
    destruct (String.eqb_spec ip' ip) as [->|Hne]; [discriminate Hno|].
    cbn [serve].
    pose proof (checkRateLimit_other t' ip ip' tbl (not_eq_sym Hne)) as Ho.
    destruct (checkRateLimit t' ip' tbl) as [b tbl1]. cbn [snd] in Ho.
    specialize (IH Hno tbl1 ltac:(congruence)).
    destruct (serve evs tbl1) as [bs tbl2]. exact IH. }
  unfold checkRateLimit. rewrite Hl. reflexivity.
Qed.

End LimiterMore.

(* ===================================================================== *)
(** * Further properties of the login and refresh handlers *)
(* ===================================================================== *)

Section HandlerEffects.
Import Jose Keys Http Process.

Lemma getPrivateKey_cache `{Primitives} env c k c1 :
  getPrivateKey env c = (Some k, c1) -> privateKey c1 = Some k.
Proof.
  unfold getPrivateKey. destruct (privateKey c) as [k0|] eqn:E.
  - intros [= <- <-]. exact E.
  - destruct (env !! "JWT_PRIVATE_KEY") as [b|]; [|discriminate].
    destruct (String.eqb b ""); [discriminate|].
    destruct (importPKCS8 _ _); [|discriminate].
    intros [= <- <-]. reflexivity.
Qed.

Lemma signAccessToken_cached `{Primitives} env a b p c k :
  privateKey c = Some k ->
  Jwt.signAccessToken env a b p c
  = (Some (SignJWT a b "RS256" (Jwt.in_role p) (Jwt.in_permissions p)
             (Jwt.in_sub p) (Jwt.issuer_of env) (Jwt.audience_of env) k), c).
Proof.
  intros Hk. unfold Jwt.signAccessToken, getPrivateKey. rewrite Hk. reflexivity.
Qed.

(** What a login does to the process state, by outcome. *)
Lemma login_effect `{Primitives} env d request body backend w :
  let r := Login.POST env d request body backend w in
  (store r.2 = store w /\ keys r.2 = keys w
   /\ exists status e, r.1 = ErrorJson status e)
  \/ exists k status agent,
       body = Login.BodyValid k
       /\ backend k = Login.FetchReply status (Some agent)
       /\ Login.ok status = true
       /\ store r.2
          = (Store.createSession (uuid d) (t_create d) (Login.user_of agent) k
               (store w)).2
       /\ ((r.1 = Login.internal_error /\ keys r.2 = keys w)
           \/ exists tok key,
                r.1 = Issued tok (uuid d) /\ privateKey (keys r.2) = Some key).
Proof.
  cbv zeta. unfold Login.POST.
  destruct (Login.checkRateLimit _ _ _) as [[|] tbl]; cbn [fst snd negb];
    [|left; cbn; eauto].
  destruct body as [| |k]; try (left; cbn; eauto; fail).
  destruct (backend k) as [|status [a|]] eqn:Eb; try (left; cbn; eauto; fail);
    destruct (status =? 401); try (left; cbn; eauto; fail);
    destruct (Login.ok status) eqn:Eo; try (left; cbn; eauto; fail).
  cbn [negb store keys].
  right. exists k, status, a.
  destruct (Store.createSession (uuid d) (t_create d) (Login.user_of a) k (store w))
    as [rt st] eqn:Ec.
  assert (rt = uuid d) by (unfold Store.createSession in Ec; congruence). subst rt.
  unfold Jwt.signAccessToken.
  destruct (getPrivateKey env (keys w)) as [[key|] kc] eqn:Ek; cbn [fst snd store keys].
  - split; [reflexivity|]. split; [exact Eb|]. split; [exact Eo|].
    split; [reflexivity|].
    right. eexists. exists key. split; [reflexivity|].
    exact (getPrivateKey_cache _ _ _ _ Ek).
  - split; [reflexivity|]. split; [exact Eb|]. split; [exact Eo|].
    split; [reflexivity|].
    left. split; [reflexivity|].
    unfold getPrivateKey in Ek.
    destruct (privateKey (keys w)); [discriminate|].
    destruct (env !! "JWT_PRIVATE_KEY") as [b|]; [|congruence].
    destruct (String.eqb b ""); [congruence|].
    destruct (importPKCS8 _ _); [discriminate | congruence].
Qed.

(** What an accepted login does: the rate limiter admitted the call, the
    body carried a key, and the backend answered it with a 2xx status and
    a readable body. *)
Lemma login_accepted `{Primitives} env d request backend w k status agent :
  (Login.checkRateLimit (t_check d) (client_ip (headers request))
     (loginAttempts w)).1 = true ->
  backend k = Login.FetchReply status (Some agent) ->
  Login.ok status = true ->
  let r := Login.POST env d request (Login.BodyValid k) backend w in
  let signed :=
    Jwt.signAccessToken env (t_iat d) (t_exp d)
      {| Jwt.in_sub := Login.user_of agent;
         Jwt.in_role := Roles.role_name (Login.role_of env (Login.user_of agent));
         Jwt.in_permissions :=
           Roles.ROLE_PERMISSIONS (Login.role_of env (Login.user_of agent)) |}
      (keys w) in
  store r.2
  = (Store.createSession (uuid d) (t_create d) (Login.user_of agent) k (store w)).2
  /\ keys r.2 = signed.2
  /\ r.1 = match signed.1 with
           | Some tok => Issued tok (uuid d)
           | None => Login.internal_error
           end.
Proof.
  intros Ha Hb Ho. cbv zeta. unfold Login.POST.
  destruct (Login.checkRateLimit _ _ _) as [allowed tbl]. cbn [fst] in Ha. subst allowed.
  cbn [negb]. rewrite Hb.
  assert (Hs : (status =? 401) = false).
  { unfold Login.ok in Ho. apply andb_true_iff in Ho. destruct Ho as [_ Hle].
    apply Z.leb_le in Hle. apply Z.eqb_neq. lia. }
  rewrite Hs, Ho. cbn [negb store keys].
  destruct (Store.createSession (uuid d) (t_create d) (Login.user_of agent) k (store w))
    as [rt st] eqn:Ec.
  assert (rt = uuid d) by (unfold Store.createSession in Ec; congruence). subst rt.
  destruct (Jwt.signAccessToken _ _ _ _ _) as [[tok|] kc]; cbn [fst snd store keys];
    repeat split.
Qed.

(** X15: a login changes the session store only when the backend answered
    the submitted key with a 2xx status and a readable body, and then by
    exactly one [createSession] for the user the backend named and the
    submitted key; on every other path (rate limit, invalid body, 401 or
    other error of the backend) store and key cache are untouched.
    Conversely every login that the rate limiter admits and the backend
    accepts creates that session, whatever signing does afterwards: the
    answer is the signed token with the new session as cookie, or 500 when
    signing fails, as it does when the private key is unavailable, and the
    session stays in the store in that case too. *)
Theorem login_creates_session_only_when_accepted
    (P : Primitives) (env : Env) (d : Draws) (request : NextRequest)
    (body : Login.Body) (backend : string -> Login.Fetch) (w : World) :
  let r := Login.POST env d request body backend w in
  ((store r.2 = store w /\ keys r.2 = keys w
    /\ exists status e, r.1 = ErrorJson status e)
   \/ exists k status agent,
        body = Login.BodyValid k
        /\ backend k = Login.FetchReply status (Some agent)
        /\ Login.ok status = true
        /\ store r.2
           = (Store.createSession (uuid d) (t_create d) (Login.user_of agent) k
                (store w)).2
        /\ Store.sessions (store r.2) !! uuid d
           = Some {| Store.moltbookApiKey := k;
                     Store.userId := Login.user_of agent;
                     Store.expiresAt := t_create d + Store.SESSION_TTL_MS;
                     Store.used := false |}
        /\ (r.1 = Login.internal_error \/ exists tok, r.1 = Issued tok (uuid d)))
  /\ forall k status agent,
       (Login.checkRateLimit (t_check d) (client_ip (headers request))
          (loginAttempts w)).1 = true ->
       body = Login.BodyValid k ->
       backend k = Login.FetchReply status (Some agent) ->
       Login.ok status = true ->
       let signed :=
         Jwt.signAccessToken env (t_iat d) (t_exp d)
           {| Jwt.in_sub := Login.user_of agent;
              Jwt.in_role :=
                Roles.role_name (Login.role_of env (Login.user_of agent));
              Jwt.in_permissions :=
                Roles.ROLE_PERMISSIONS (Login.role_of env (Login.user_of agent)) |}
           (keys w) in
       store r.2
       = (Store.createSession (uuid d) (t_create d) (Login.user_of agent) k
            (store w)).2
       /\ Store.sessions (store r.2) !! uuid d
          = Some {| Store.moltbookApiKey := k;
                    Store.userId := Login.user_of agent;
                    Store.expiresAt := t_create d + Store.SESSION_TTL_MS;
                    Store.used := false |}
       /\ keys r.2 = signed.2
       /\ r.1 = match signed.1 with
                | Some tok => Issued tok (uuid d)
                | None => Login.internal_error
                end
       /\ ((getPrivateKey env (keys w)).1 = None ->
           r.1 = Login.internal_error
           /\ Store.sessions (store r.2) !! uuid d
              = Some {| Store.moltbookApiKey := k;
                        Store.userId := Login.user_of agent;
                        Store.expiresAt := t_create d + Store.SESSION_TTL_MS;
                        Store.used := false |}).
Proof.
  cbv zeta. split.
  - destruct (login_effect env d request body backend w)
      as [H | (k & status & agent & Hb & Hf & Ho & Hs & Hr)]; [left; exact H|].
    right. exists k, status, agent. repeat split; try assumption.
    + rewrite Hs. apply lookup_insert_eq.
    + destruct Hr as [[Hr _] | (tok & key & Hr & _)]; [left | right; exists tok];
        exact Hr.
  - intros k status agent Ha -> Hb Ho.
    destruct (login_accepted env d request backend w k status agent Ha Hb Ho)
      as (Hs & Hk & Hr).
    assert (Hl : Store.sessions (store (Login.POST env d request (Login.BodyValid k)
                                          backend w).2) !! uuid d
                 = Some {| Store.moltbookApiKey := k;
                           Store.userId := Login.user_of agent;
                           Store.expiresAt := t_create d + Store.SESSION_TTL_MS;
                           Store.used := false |}).
    { rewrite Hs. apply lookup_insert_eq. }
    split; [exact Hs|]. split; [exact Hl|]. split; [exact Hk|]. split; [exact Hr|].
    intros Hnone. split.
    + rewrite Hr. unfold Jwt.signAccessToken.
      destruct (getPrivateKey env (keys w)) as [[key|] kc]; [discriminate Hnone|].
      reflexivity.
    + exact Hl.
Qed.

Lemma login_creates_session_only_when_accepted_witness :
  let w := @Build_World toy_primitives Store.empty_state ∅ empty_cache in
  let d := {| t_check := 0; t_create := 0; uuid := "s1"; t_iat := 0; t_exp := 900 |} in
  let request := {| method := "POST"; pathname := "/api/auth/login";
                    headers := ∅; cookies := ∅ |} in
  let backend := fun _ : string =>
    Login.FetchReply 200
      (Some {| Login.name := Some "alice"; Login.id := None;
               Login.agentId := "undefined" |}) in
  let r := @Login.POST toy_primitives ∅ d request (Login.BodyValid "key") backend w in
  r.1 = @Login.internal_error toy_primitives
  /\ Store.sessions (store r.2) !! "s1"
     = Some {| Store.moltbookApiKey := "key"; Store.userId := "alice";
               Store.expiresAt := Store.SESSION_TTL_MS; Store.used := false |}.
Proof.
  intros w d request backend r.
  assert (Ha : (Login.checkRateLimit (t_check d) (client_ip (headers request))
                  (loginAttempts w)).1 = true) by reflexivity.
  assert (Hk : (@getPrivateKey toy_primitives ∅ (keys w)).1 = None) by reflexivity.
  exact (proj2 (proj2 (proj2 (proj2
           (proj2 (login_creates_session_only_when_accepted toy_primitives ∅ d
                     request (Login.BodyValid "key") backend w)
              "key" 200
              {| Login.name := Some "alice"; Login.id := None;
                 Login.agentId := "undefined" |}
              Ha eq_refl eq_refl eq_refl)))) Hk).
Defined.

End HandlerEffects.

Section RefreshEffects.
Import Jose Keys Http Process.

Lemma refresh_live `{Primitives} env d request w rt s key :
  cookies request !! "refresh_token" = Some rt -> rt <> "" ->
  Store.sessions (store w) !! rt = Some s -> Store.used s = false ->
  t_check d <= Store.expiresAt s ->
  privateKey (keys w) = Some key ->
  Refresh.POST env d request w
  = (Issued
       (SignJWT (t_iat d) (t_exp d) "RS256" "agent" ["read"; "write"]
          (Store.userId s) (Jwt.issuer_of env) (Jwt.audience_of env) key)
       (uuid d),
     {| store :=
          (Store.createSession (uuid d) (t_create d) (Store.userId s)
             (Store.moltbookApiKey s)
             {| Store.sessions := <[rt := Store.mark_used s]> (Store.sessions (store w));
                Store.userSessions := Store.userSessions (store w) |}).2;
        loginAttempts := loginAttempts w;
        keys := keys w |}).
Proof.
  intros Hc Hne Hs Hu Ht Hk. unfold Refresh.POST. rewrite Hc.
  apply String.eqb_neq in Hne. rewrite Hne.
  rewrite (consumeSession_live _ _ _ _ _ s Hs Ht Hu).
  cbn [keys Store.c_userId Store.newRefreshToken].
  rewrite (signAccessToken_cached env _ _ _ _ key Hk). reflexivity.
Qed.

Lemma refresh_spent `{Primitives} env d request w rt :
  cookies request !! "refresh_token" = Some rt ->
  spent rt (store w) ->
  (Refresh.POST env d request w).1 = ErrorJson 401 "Unauthorized".
Proof.
  intros Hc Hs. unfold Refresh.POST. rewrite Hc.
  destruct (String.eqb rt ""); [reflexivity|].
  pose proof (spent_consume_none (t_check d) (t_create d) (uuid d) rt (store w) Hs) as Hn.
  destruct (Store.consumeSession _ _ _ _ _) as [r st]. cbn [fst] in Hn. subst r.
  reflexivity.
Qed.


(** X17: after a successful login, a refresh that presents the login's
    cookie within seven days of the login succeeds and hands out a new
    cookie; every later refresh that presents the login's cookie again is
    answered 401. *)
Theorem login_refresh_then_replay_rejected
    (P : Primitives) (env : Env) (d1 d2 : Draws) (request request2 : NextRequest)
    (body : Login.Body) (backend : string -> Login.Fetch) (w w1 : World)
    (tok : Token) (rt : string) :
  Login.POST env d1 request body backend w = (Issued tok rt, w1) ->
  cookies request2 !! "refresh_token" = Some rt ->
  rt <> "" ->
  t_check d2 <= t_create d1 + Store.SESSION_TTL_MS ->
  uuid d2 <> rt ->
  exists tok2 w2,
    Refresh.POST env d2 request2 w1 = (Issued tok2 (uuid d2), w2)
    /\ forall d3 request3,
         cookies request3 !! "refresh_token" = Some rt ->
         (Refresh.POST env d3 request3 w2).1 = ErrorJson 401 "Unauthorized".
Proof.
  intros Hl Hc Hne Ht Hu.
  pose proof (login_effect env d1 request body backend w) as He.
  cbv zeta in He. rewrite Hl in He. cbn [fst snd] in He.
  destruct He as [(_ & _ & st & e & He) | (k & status & agent & _ & _ & _ & Hs & Hr)];
    [discriminate He|].
  destruct Hr as [[Hr _] | (tok' & key & Hr & Hk)]; [discriminate Hr|].
  injection Hr as -> ->.
  set (s := {| Store.moltbookApiKey := k; Store.userId := Login.user_of agent;
               Store.expiresAt := t_create d1 + Store.SESSION_TTL_MS;
               Store.used := false |}).
  assert (Hs1 : Store.sessions (store w1) !! uuid d1 = Some s).
  { rewrite Hs. apply lookup_insert_eq. }
  rewrite (refresh_live env d2 request2 w1 (uuid d1) s key Hc Hne Hs1 eq_refl Ht Hk).
  eexists _, _. split; [reflexivity|].
  intros d3 request3 Hc3. apply (refresh_spent env d3 request3 _ (uuid d1) Hc3).
  unfold spent. cbn [store Store.createSession snd Store.sessions].
  rewrite lookup_insert_ne by exact Hu. rewrite lookup_insert_eq. reflexivity.
Qed.

Lemma login_refresh_then_replay_rejected_witness :
  let env : Env := {[ "JWT_PRIVATE_KEY" := "cHJpdg==" ]} in
  let w0 := @Build_World toy_primitives Store.empty_state ∅ empty_cache in
  let backend := fun _ : string =>
    Login.FetchReply 200
      (Some {| Login.name := Some "alice"; Login.id := None;
               Login.agentId := "undefined" |}) in
  let d1 := {| t_check := 0; t_create := 0; uuid := "s1"; t_iat := 0; t_exp := 0 |} in
  let d2 := {| t_check := 5; t_create := 5; uuid := "s2"; t_iat := 5; t_exp := 5 |} in
  let login_request := {| method := "POST"; pathname := "/api/auth/login";
                          headers := ∅; cookies := ∅ |} in
  let refresh_request := {| method := "POST"; pathname := "/api/auth/refresh";
                            headers := ∅;
                            cookies := {[ "refresh_token" := "s1" ]} |} in
  let w1 := (Login.POST env d1 login_request (Login.BodyValid "key") backend w0).2 in
  exists tok2 w2,
    Refresh.POST env d2 refresh_request w1 = (Issued tok2 "s2", w2)
    /\ forall d3 request3,
         cookies request3 !! "refresh_token" = Some "s1" ->
         (Refresh.POST env d3 request3 w2).1 = ErrorJson 401 "Unauthorized".
Proof.
  intros env w0 backend d1 d2 login_request refresh_request w1.
  apply (login_refresh_then_replay_rejected toy_primitives env d1 d2
           login_request refresh_request (Login.BodyValid "key") backend w0 w1
           (@SignJWT toy_primitives 0 0 "RS256" "agent" ["read"; "write"]
              "alice" "moltbook-frontend" "moltbook-api" 7%nat) "s1").
  - vm_compute. reflexivity.
  - reflexivity.
  - discriminate.
  - vm_compute. discriminate.
  - discriminate.
Defined.

End RefreshEffects.

Section AdminList.
Import Keys Http.

Lemma split_nonempty sep s : split sep s <> [].
Proof.
  destruct s as [|c s]; simpl; [discriminate|].
  destruct (Ascii.eqb c sep); [discriminate|].
  destruct (split sep s); discriminate.
Qed.

Lemma split_no_sep sep s : Forall (fun p => contains sep p = false) (split sep s).
Proof.
  induction s as [|c s IH]; simpl.
  - repeat constructor.
  - destruct (Ascii.eqb c sep) eqn:E.
    + constructor; [reflexivity | exact IH].
    + destruct (split sep s) as [|h t].
      * repeat constructor. simpl. rewrite E. reflexivity.
      * inversion IH as [|? ? Hh Ht]; subst. constructor; [|exact Ht].
        simpl. rewrite E, Hh. reflexivity.
Qed.

Lemma split_whole sep p : contains sep p = false -> split sep p = [p].
Proof.
  induction p as [|c p IH]; simpl; [reflexivity|].
  intros H. apply orb_false_iff in H. destruct H as [E H].
  rewrite E, (IH H). reflexivity.
Qed.

Lemma split_app sep a b :
  split sep (a ++ String sep b) = (split sep a ++ split sep b)%list.
Proof.
  induction a as [|c a IH]; simpl.
  - rewrite Ascii.eqb_refl. reflexivity.
  - destruct (Ascii.eqb c sep); [rewrite IH; reflexivity|].
    rewrite IH. pose proof (split_nonempty sep a) as Hne.
    destruct (split sep a) as [|h t]; [contradiction | reflexivity].
Qed.

Lemma split_concat sep l :
  l <> [] -> Forall (fun p => contains sep p = false) l ->
  split sep (String.concat (String sep EmptyString) l) = l.
Proof.
  induction l as [|x l IH]; [contradiction|].
  intros _ Hall. inversion Hall as [|? ? Hx Hl]; subst.
  destruct l as [|y l].
  - simpl. apply split_whole. exact Hx.
  - change (String.concat (String sep EmptyString) (x :: y :: l))
      with (x ++ String sep (String.concat (String sep EmptyString) (y :: l))).
    rewrite split_app, (split_whole sep x Hx), IH; [reflexivity | discriminate | exact Hl].
Qed.

Lemma strip_l_Some p : forall s r, strip_l p s = Some r -> s = (p ++ r)%list.
Proof.
  induction p as [|a p IH]; intros s r; simpl.
  - intros [= ->]. reflexivity.
  - destruct s as [|b s]; [discriminate|].
    destruct (Ascii.eqb_spec a b) as [->|]; [|discriminate].
    intros H. rewrite (IH s r H). reflexivity.
Qed.

Lemma strip_l_app p r : strip_l p (p ++ r)%list = Some r.
Proof.
  induction p as [|a p IH]; simpl; [reflexivity|].
  rewrite Ascii.eqb_refl. exact IH.
Qed.

Lemma front_Some codes s r :
  front codes s = Some r -> exists c, In c codes /\ s = (c ++ r)%list.
Proof.
  induction codes as [|c codes IH]; simpl; [discriminate|].
  destruct (strip_l c s) as [r'|] eqn:E.
  - intros [= <-]. exists c. split; [left; reflexivity | exact (strip_l_Some _ _ _ E)].
  - intros H. destruct (IH H) as (c' & Hin & Hs). exists c'. auto.
Qed.

Lemma front_None codes s :
  front codes s = None -> forall c r, In c codes -> s <> (c ++ r)%list.
Proof.
  induction codes as [|c codes IH]; simpl; [intros _ c r []|].
  destruct (strip_l c s) as [r'|] eqn:E; [discriminate|].
  intros H c' r [<-|Hin] Hs.
  - rewrite Hs, strip_l_app in E. discriminate.
  - exact (IH H c' r Hin Hs).
Qed.

Lemma drop_front_suffix codes n : forall s,
  exists pre, s = (pre ++ drop_front codes n s)%list.
Proof.
  induction n as [|n IH]; intros s; simpl; [exists []; reflexivity|].
  destruct (front codes s) as [r|] eqn:E; [|exists []; reflexivity].
  destruct (front_Some _ _ _ E) as (c & _ & ->).
  destruct (IH r) as [pre Hpre]. exists (c ++ pre)%list.
  rewrite <- app_assoc, <- Hpre. reflexivity.
Qed.

Lemma drop_front_done codes n :
  Forall (fun c => c <> []) codes ->
  forall s, (List.length s <= n)%nat -> front codes (drop_front codes n s) = None.
Proof.
  intros Hne. induction n as [|n IH]; intros s Hlen; simpl.
  - destruct s; [|simpl in Hlen; lia].
    destruct (front codes []) as [r|] eqn:E; [|reflexivity].
    destruct (front_Some _ _ _ E) as (c & Hin & Hs).
    pose proof (proj1 (List.Forall_forall _ _) Hne c Hin) as Hc.
    destruct c; [contradiction | discriminate].
  - destruct (front codes s) as [r|] eqn:E; [|exact E].
    apply IH. destruct (front_Some _ _ _ E) as (c & Hin & ->).
    pose proof (proj1 (List.Forall_forall _ _) Hne c Hin) as Hc.
    rewrite length_app in Hlen. destruct c; [contradiction|]. simpl in Hlen. lia.
Qed.

Lemma white_space_nonempty : Forall (fun c => c <> []) WHITE_SPACE.
Proof. repeat constructor; discriminate. Qed.

Lemma white_space_rev_nonempty :
  Forall (fun c => c <> []) (List.map (@List.rev ascii) WHITE_SPACE).
Proof. repeat constructor; discriminate. Qed.

(** What [trim] returns lies inside its argument and neither begins nor
    ends with a code point of [WHITE_SPACE]. *)
Lemma trim_l_inside s :
  exists a b, s = (a ++ trimEnd_l (trimStart_l s) ++ b)%list.
Proof.
  unfold trimEnd_l, trimStart_l.
  destruct (drop_front_suffix WHITE_SPACE (List.length s) s) as [a Ha].
  set (x := drop_front WHITE_SPACE (List.length s) s) in *.
  destruct (drop_front_suffix (List.map (@List.rev ascii) WHITE_SPACE)
              (List.length x) (List.rev x)) as [b Hb].
  set (y := drop_front _ (List.length x) (List.rev x)) in *.
  exists a, (List.rev b). rewrite <- rev_app_distr, <- Hb, rev_involutive. exact Ha.
Qed.

Lemma trim_l_front s c r :
  In c WHITE_SPACE -> trimEnd_l (trimStart_l s) <> (c ++ r)%list.
Proof.
  intros Hin Heq.
  pose proof (drop_front_done WHITE_SPACE (List.length s) white_space_nonempty s
                (Nat.le_refl _)) as Hx.
  fold (trimStart_l s) in Hx. set (x := trimStart_l s) in *.
  unfold trimEnd_l in Heq.
  destruct (drop_front_suffix (List.map (@List.rev ascii) WHITE_SPACE)
              (List.length x) (List.rev x)) as [b Hb].
  set (y := drop_front _ (List.length x) (List.rev x)) in *.
  assert (Hxy : x = (List.rev y ++ List.rev b)%list).
  { rewrite <- rev_app_distr, <- Hb, rev_involutive. reflexivity. }
  rewrite Heq, <- app_assoc in Hxy.
  exact (front_None _ _ Hx c _ Hin Hxy).
Qed.

Lemma trim_l_back s c r :
  In c WHITE_SPACE -> trimEnd_l (trimStart_l s) <> (r ++ c)%list.
Proof.
  intros Hin Heq. set (x := trimStart_l s) in *. unfold trimEnd_l in Heq.
  pose proof (drop_front_done (List.map (@List.rev ascii) WHITE_SPACE)
                (List.length x) white_space_rev_nonempty (List.rev x)
                ltac:(rewrite length_rev; lia)) as Hy.
  set (y := drop_front _ (List.length x) (List.rev x)) in *.
  apply (f_equal (@List.rev ascii)) in Heq.
  rewrite rev_involutive, rev_app_distr in Heq.
  exact (front_None _ _ Hy (List.rev c) (List.rev r) (in_map _ _ _ Hin) Heq).
Qed.

Lemma contains_In c s : contains c s = true <-> In c (list_ascii_of_string s).
Proof.
  induction s as [|b s IH]; simpl; [split; [discriminate | tauto]|].
  rewrite orb_true_iff, IH, Ascii.eqb_eq. tauto.
Qed.

Lemma trim_list s :
  list_ascii_of_string (trim s)
  = trimEnd_l (trimStart_l (list_ascii_of_string s)).
Proof. unfold trim. apply list_ascii_of_string_of_list_ascii. Qed.

Lemma trim_contains c s : contains c (trim s) = true -> contains c s = true.
Proof.
  rewrite !contains_In, trim_list. intros H.
  destruct (trim_l_inside (list_ascii_of_string s)) as (a & b & Hs).
  rewrite Hs. apply in_or_app. right. apply in_or_app. left. exact H.
Qed.

Lemma adminIds_in env uid :
  includes (Login.adminIds env) uid = true <->
  uid <> ""
  /\ exists piece, In piece (split ","%char (default "" (env !! "ADMIN_USER_IDS")))
                   /\ uid = trim piece.
Proof.
  unfold includes, Login.adminIds. rewrite existsb_exists. split.
  - intros (x & Hin & Hx). apply String.eqb_eq in Hx. subst x.
    apply filter_In in Hin. destruct Hin as [Hin Hne].
    apply in_map_iff in Hin. destruct Hin as (piece & Hp & Hin).
    apply negb_true_iff, String.eqb_neq in Hne. split; [exact Hne|].
    exists piece. auto.
  - intros (Hne & piece & Hin & ->). exists (trim piece). split.
    + apply filter_In. split.
      * apply in_map. exact Hin.
      * apply negb_true_iff, String.eqb_neq. exact Hne.
    + apply String.eqb_refl.
Qed.

(** X18: the admin role is given only when [ADMIN_USER_IDS] is set, and
    never to a user identifier that is empty, contains a comma, or begins
    or ends with white space (any code point that [trim] removes);
    conversely, when the variable is a
    comma-joined list of entries, every entry that is not blank makes the
    user named by the entry without its surrounding white space an
    admin. *)
Theorem admin_role_from_list (env : Env) :
  (forall uid,
     Login.role_of env uid = Roles.admin ->
     (exists v, env !! "ADMIN_USER_IDS" = Some v)
     /\ uid <> ""
     /\ contains ","%char uid = false
     /\ ~ begins_with_white_space uid
     /\ ~ ends_with_white_space uid)
  /\ (forall entries entry,
        env !! "ADMIN_USER_IDS" = Some (String.concat "," entries) ->
        Forall (fun p => contains ","%char p = false) entries ->
        In entry entries -> trim entry <> "" ->
        Login.role_of env (trim entry) = Roles.admin).
Proof.
  split.
  - intros uid. unfold Login.role_of.
    destruct (includes (Login.adminIds env) uid) eqn:Hin; [|discriminate].
    intros _. apply adminIds_in in Hin. destruct Hin as (Hne & piece & Hp & ->).
    split.
    { destruct (env !! "ADMIN_USER_IDS") as [v|]; [eauto|].
      simpl in Hp. destruct Hp as [<-|[]]. contradiction Hne. reflexivity. }
    split; [exact Hne|]. split; [|split].
    + pose proof (split_no_sep ","%char (default "" (env !! "ADMIN_USER_IDS"))) as Hall.
      pose proof (proj1 (List.Forall_forall _ _) Hall piece Hp) as Hc.
      destruct (contains ","%char (trim piece)) eqn:E; [|reflexivity].
      apply trim_contains in E. congruence.
    + intros (c & r & Hc & Heq). rewrite trim_list in Heq.
      exact (trim_l_front _ c r Hc Heq).
    + intros (c & r & Hc & Heq). rewrite trim_list in Heq.
      exact (trim_l_back _ c r Hc Heq).
  - intros entries entry Hv Hall Hin Hne. unfold Login.role_of.
    assert (H : includes (Login.adminIds env) (trim entry) = true).
    { apply adminIds_in. split; [exact Hne|]. exists entry. split; [|reflexivity].
      rewrite Hv. change (default "" (Some (String.concat "," entries)))
        with (String.concat (String ","%char EmptyString) entries).
      rewrite split_concat; [exact Hin | | exact Hall].
      intros ->. inversion Hin. }
    rewrite H. reflexivity.
Qed.

End AdminList.

(* ===================================================================== *)
(** * Further properties of the resolver and the authorization gate *)
(* ===================================================================== *)

Section ResolverForm.
Import Roles.

Lemma test_Lit p s : test (Lit p) s = String.prefix p s.
Proof.
  unfold test. cbn [rmatch]. revert s.
  induction p as [|a p IH]; intros [|b s]; cbn [strip String.prefix]; try reflexivity.
  destruct (ascii_dec a b) as [->|Hne].
  - rewrite Ascii.eqb_refl. apply IH.
  - apply Ascii.eqb_neq in Hne. rewrite Hne. reflexivity.
Qed.

Lemma required_closed m p :
  getRequiredPermission m p =
  if String.eqb m "DELETE" && String.prefix "/api/" p then "delete"
  else default_permission m.
Proof.
  unfold getRequiredPermission, ROUTE_PERMISSIONS.
  cbn [first_rule]. unfold rule_matches. cbn [method pattern requires].
  rewrite test_Lit, (String.eqb_sym "DELETE" m).
  destruct (String.eqb_spec m "DELETE") as [->|Hd]; cbn [andb].
  - destruct (String.prefix "/api/" p); reflexivity.
  - destruct (String.eqb_spec "PATCH" m) as [<-|Hp]; cbn [andb].
    + destruct (test _ p); reflexivity.
    + destruct (String.eqb_spec "POST" m) as [<-|Ho]; cbn [andb]; [|reflexivity].
      destruct (test _ p); reflexivity.
Qed.

(** X19: the resolver in closed form: "delete" for [DELETE] on a path that
    begins with [/api/], otherwise "read" for [GET] and [HEAD] and "write"
    for every other method; the [PATCH] and [POST] rules of the list never
    change the result. *)
Theorem getRequiredPermission_closed_form (m p : string) :
  getRequiredPermission m p =
  if String.eqb m "DELETE" && String.prefix "/api/" p then "delete"
  else if String.eqb m "GET" || String.eqb m "HEAD" then "read"
  else "write".
Proof. apply required_closed. Qed.

End ResolverForm.

Section GateMore.
Import Jose Http Middleware.

Lemma middleware_protected verify r tok p :
  protected r ->
  bearer_token (headers r) = Some tok -> tok <> "" ->
  verify tok = Some p ->
  middleware verify r =
  if includes (permissions p)
       (Roles.getRequiredPermission (method r) (pathname r))
  then
    match header_value (subject_string p), header_value (role p) with
    | Some u, Some ro =>
        addSecurityHeaders
          (next (Some (<["x-user-role" := ro]> (<["x-user-id" := u]> (headers r)))))
    | _, _ => unauthorized
    end
  else forbidden.
Proof.
  intros [Hapi Hpub] Hb Hne Hv. unfold middleware.
  rewrite Hapi, Hpub, Hb. cbn [negb].
  apply String.eqb_neq in Hne. rewrite Hne, Hv.
  destruct (includes _ _); [|reflexivity]. cbn [negb]. unfold headers_set.
  destruct (header_value (subject_string p)); [|reflexivity].
  destruct (header_value (role p)); reflexivity.
Qed.

Lemma agent_permissions_cover m path :
  includes (Roles.ROLE_PERMISSIONS Roles.agent) (Roles.getRequiredPermission m path)
  = negb (String.eqb m "DELETE" && String.prefix "/api/" path).
Proof.
  rewrite required_closed.
  destruct (String.eqb m "DELETE" && String.prefix "/api/" path); [reflexivity|].
  unfold Roles.default_permission.
  destruct (String.eqb m "GET" || String.eqb m "HEAD"); reflexivity.
Qed.

Lemma admin_permissions_cover m path :
  includes (Roles.ROLE_PERMISSIONS Roles.admin) (Roles.getRequiredPermission m path)
  = true.
Proof.
  rewrite required_closed.
  destruct (String.eqb m "DELETE" && String.prefix "/api/" path); [reflexivity|].
  unfold Roles.default_permission.
  destruct (String.eqb m "GET" || String.eqb m "HEAD"); reflexivity.
Qed.

(** X20: a verified token that carries the permissions of the [agent]
    role is answered 403 on every protected [DELETE]; on every other
    protected request it is let through, with its subject and role
    forwarded as [Headers.set] stores them, when both are legal header
    values, and answered 401 when one of them is not. *)
Theorem gate_agent_permissions
    (verify : string -> option JWTPayload) (r : NextRequest)
    (tok : string) (p : JWTPayload) :
  protected r ->
  bearer_token (headers r) = Some tok -> tok <> "" ->
  verify tok = Some p ->
  permissions p = Roles.ROLE_PERMISSIONS Roles.agent ->
  (method r = "DELETE" -> middleware verify r = forbidden)
  /\ (method r <> "DELETE" ->
      forall u ro,
        header_value (subject_string p) = Some u ->
        header_value (role p) = Some ro ->
        disposition (middleware verify r)
        = Continue (Some (<["x-user-role" := ro]>
                            (<["x-user-id" := u]> (headers r)))))
  /\ (method r <> "DELETE" ->
      header_value (subject_string p) = None \/ header_value (role p) = None ->
      middleware verify r = unauthorized).
Proof.
  intros Hprot Hb Hne Hv Hperm.
  rewrite (middleware_protected verify r tok p Hprot Hb Hne Hv), Hperm.
  rewrite agent_permissions_cover. destruct Hprot as [Hapi _]. rewrite Hapi.
  split; [|split].
  - intros ->. reflexivity.
  - intros Hm u ro Hu Hr. apply String.eqb_neq in Hm. rewrite Hm, Hu, Hr.
    reflexivity.
  - intros Hm Hnone. apply String.eqb_neq in Hm. rewrite Hm. cbn [andb negb].
    destruct Hnone as [-> | Hr]; [reflexivity|]. rewrite Hr.
    destruct (header_value (subject_string p)); reflexivity.
Qed.

Lemma gate_agent_permissions_witness :
  let verify := fun tok : string =>
    if String.eqb tok "t1" then
      Some {| iss := Some "moltbook-frontend"; sub := Some "alice";
              aud := Some "moltbook-api"; exp := Some 900; nbf := None;
              iat := Some 0; role := "agent"; permissions := ["read"; "write"] |}
    else None in
  let r := {| method := "DELETE"; pathname := "/api/posts/42";
              headers := {[ "authorization" := "Bearer t1" ]};
              cookies := ∅ |} in
  middleware verify r = forbidden.
Proof.
  cbv zeta.
  match goal with
  | |- middleware ?v ?r = _ =>
      apply (proj1 (gate_agent_permissions v r "t1"
                      {| iss := Some "moltbook-frontend"; sub := Some "alice";
                         aud := Some "moltbook-api"; exp := Some 900; nbf := None;
                         iat := Some 0; role := "agent";
                         permissions := ["read"; "write"] |}
                      (conj eq_refl eq_refl) eq_refl ltac:(discriminate)
                      eq_refl eq_refl))
  end.
  reflexivity.
Defined.

(** X21: a verified token that carries the permissions of the [admin]
    role is never answered 403 on a protected request: it is let through,
    with its subject and role forwarded as [Headers.set] stores them, when
    both are legal header values, and answered 401 when one of them is
    not. *)
Theorem gate_admin_permissions
    (verify : string -> option JWTPayload) (r : NextRequest)
    (tok : string) (p : JWTPayload) :
  protected r ->
  bearer_token (headers r) = Some tok -> tok <> "" ->
  verify tok = Some p ->
  permissions p = Roles.ROLE_PERMISSIONS Roles.admin ->
  (forall u ro,
     header_value (subject_string p) = Some u ->
     header_value (role p) = Some ro ->
     disposition (middleware verify r)
     = Continue (Some (<["x-user-role" := ro]>
                         (<["x-user-id" := u]> (headers r)))))
  /\ (header_value (subject_string p) = None \/ header_value (role p) = None ->
      middleware verify r = unauthorized).
Proof.
  intros Hprot Hb Hne Hv Hperm.
  rewrite (middleware_protected verify r tok p Hprot Hb Hne Hv), Hperm.
  rewrite admin_permissions_cover. split.
  - intros u ro Hu Hr. rewrite Hu, Hr. reflexivity.
  - intros [-> | Hr]; [reflexivity|]. rewrite Hr.
    destruct (header_value (subject_string p)); reflexivity.
Qed.

Lemma gate_admin_permissions_witness :
  let verify := fun tok : string =>
    if String.eqb tok "t1" then
      Some {| iss := Some "moltbook-frontend"; sub := Some "root";
              aud := Some "moltbook-api"; exp := Some 900; nbf := None;
              iat := Some 0; role := "admin";
              permissions := ["read"; "write"; "delete"; "admin"] |}
    else None in
  let r := {| method := "DELETE"; pathname := "/api/posts/42";
              headers := {[ "authorization" := "Bearer t1" ]};
              cookies := ∅ |} in
  disposition (middleware verify r)
  = Continue (Some (<["x-user-role" := "admin"]>
                      (<["x-user-id" := "root"]>
                         {[ "authorization" := "Bearer t1" ]}))).
Proof.
  cbv zeta.
  match goal with
  | |- disposition (middleware ?v ?r) = _ =>
      apply (proj1 (gate_admin_permissions v r "t1"
                      {| iss := Some "moltbook-frontend"; sub := Some "root";
                         aud := Some "moltbook-api"; exp := Some 900; nbf := None;
                         iat := Some 0; role := "admin";
                         permissions := ["read"; "write"; "delete"; "admin"] |}
                      (conj eq_refl eq_refl) eq_refl ltac:(discriminate)
                      eq_refl eq_refl)
               "root" "admin" eq_refl eq_refl)
  end.
Defined.

Lemma bearer_token_Some h tok :
  bearer_token h = Some tok -> h !! "authorization" = Some ("Bearer " ++ tok).
Proof.
  unfold bearer_token.
  destruct (h !! "authorization") as [a|]; [|discriminate].
  destruct (String.prefix "Bearer " a) eqn:Ep; [|discriminate].
  intros [= <-]. f_equal.
  do 7 (destruct a as [|? a]; [discriminate Ep|];
        cbn [String.prefix] in Ep;
        match type of Ep with
        | (if ascii_dec ?x ?y then _ else _) = true =>
            destruct (ascii_dec x y) as [<-|]; [|discriminate Ep]
        end).
  reflexivity.
Qed.

(** X22: the gate never lets a protected request through unless it carries
    a non-empty bearer token that verifies to a payload whose permission
    list contains the permission the resolver requires for the request. *)
Theorem gate_requires_permission
    (verify : string -> option JWTPayload) (r : NextRequest)
    (o : option Headers) :
  protected r ->
  disposition (middleware verify r) = Continue o ->
  exists tok p,
    headers r !! "authorization" = Some ("Bearer " ++ tok)
    /\ tok <> ""
    /\ verify tok = Some p
    /\ In (Roles.getRequiredPermission (method r) (pathname r)) (permissions p).
Proof.
  intros Hprot Hd.
  destruct (middleware_pass _ _ _ Hprot Hd)
    as (tok & p & u & ro & Hb & Hne & Hv & Ei & _).
  exists tok, p. split; [exact (bearer_token_Some _ _ Hb)|].
  split; [exact Hne|]. split; [exact Hv|].
  unfold includes in Ei. apply existsb_exists in Ei.
  destruct Ei as (x & Hin & Hx). apply String.eqb_eq in Hx. subst x. exact Hin.
Qed.

Lemma gate_requires_permission_witness :
  let verify := fun tok : string =>
    if String.eqb tok "t1" then
      Some {| iss := Some "moltbook-frontend"; sub := Some "alice";
              aud := Some "moltbook-api"; exp := Some 900; nbf := None;
              iat := Some 0; role := "agent"; permissions := ["read"; "write"] |}
    else None in
  let r := {| method := "POST"; pathname := "/api/posts";
              headers := {[ "authorization" := "Bearer t1" ]};
              cookies := ∅ |} in
  exists tok p,
    headers r !! "authorization" = Some ("Bearer " ++ tok)
    /\ tok <> ""
    /\ verify tok = Some p
    /\ In (Roles.getRequiredPermission (method r) (pathname r)) (permissions p).
Proof.
  cbv zeta.
  match goal with
  | |- exists tok p, headers ?r !! _ = _ /\ _ /\ ?v tok = _ /\ _ =>
      apply (gate_requires_permission v r
               (Some (<["x-user-role" := "agent"]>
                        (<["x-user-id" := "alice"]>
                           {[ "authorization" := "Bearer t1" ]})))
               (conj eq_refl eq_refl) eq_refl)
  end.
Defined.

(** X23: a request outside [/api/] or on one of the public routes is
    passed on with its request headers untouched, whatever the verifier
    would say; on every response that passes a request on the gate sets
    the three security headers and no other, and every response with which
    it answers the request itself has status 401 or 403 and is given only
    the JSON content type. *)
Theorem gate_pass_through_and_headers
    (verify : string -> option JWTPayload) (r : NextRequest) :
  (String.prefix "/api/" (pathname r) = false \/ isPublicApiRoute r = true ->
   middleware verify r = addSecurityHeaders (next None))
  /\ (forall o, disposition (middleware verify r) = Continue o ->
        response_headers (middleware verify r)
        = <["referrer-policy" := "strict-origin-when-cross-origin"]>
            (<["x-content-type-options" := "nosniff"]>
               {[ "x-frame-options" := "DENY" ]}))
  /\ (forall status e, disposition (middleware verify r) = Answer status e ->
        (status = 401 /\ e = "Unauthorized" \/ status = 403 /\ e = "Forbidden")
        /\ response_headers (middleware verify r)
           = {[ "content-type" := "application/json" ]}).
Proof.
  unfold middleware. split; [|split].
  - intros [H|H].
    + rewrite H. reflexivity.
    + rewrite H. destruct (String.prefix "/api/" (pathname r)); reflexivity.
  - intros o.
    destruct (String.prefix "/api/" (pathname r)); cbn [negb]; [|reflexivity].
    destruct (isPublicApiRoute r); [reflexivity|].
    destruct (bearer_token (headers r)) as [tok|]; [|discriminate].
    destruct (String.eqb tok ""); [discriminate|].
    destruct (verify tok) as [p|]; [|discriminate].
    destruct (includes _ _); cbn [negb]; [|discriminate].
    destruct (headers_set "x-user-id" _ _) as [h1|]; [|discriminate].
    destruct (headers_set "x-user-role" _ _) as [h2|]; [reflexivity | discriminate].
  - intros status e.
    destruct (String.prefix "/api/" (pathname r)); cbn [negb]; [|discriminate].
    destruct (isPublicApiRoute r); [discriminate|].
    destruct (bearer_token (headers r)) as [tok|];
      [|intros [= <- <-]; split; [left; auto | reflexivity]].
    destruct (String.eqb tok "");
      [intros [= <- <-]; split; [left; auto | reflexivity]|].
    destruct (verify tok) as [p|];
      [|intros [= <- <-]; split; [left; auto | reflexivity]].
    destruct (includes _ _); cbn [negb];
      [|intros [= <- <-]; split; [right; auto | reflexivity]].
    destruct (headers_set "x-user-id" _ _) as [h1|];
      [|intros [= <- <-]; split; [left; auto | reflexivity]].
    destruct (headers_set "x-user-role" _ _) as [h2|];
      [discriminate | intros [= <- <-]; split; [left; auto | reflexivity]].
Qed.

End GateMore.

(* ===================================================================== *)
(** * Properties of the proxy handlers *)
(* ===================================================================== *)

Section ProxyFacts.
Import Http Proxy.

Variable Json : Type.
Variable Resp : Type.
Variable error_json : string -> Z -> Resp.
Variable relay_json : Json -> Z -> option Resp.
Variable no_content : Resp.

(** The credential the handlers read is the key of a session that is
    listed for the user of [x-user-id], unused and unexpired. *)
Lemma moltbookKey_live now request st key :
  moltbookKey now request st = Some key ->
  exists uid ids sid s,
    headers request !! "x-user-id" = Some uid
    /\ Store.userSessions st !! uid = Some ids /\ sid ∈ ids
    /\ Store.sessions st !! sid = Some s
    /\ Store.used s = false /\ now < Store.expiresAt s
    /\ key = Store.moltbookApiKey s.
Proof.
  unfold moltbookKey, Store.getMoltbookKey.
  destruct (headers request !! "x-user-id") as [uid|]; [|discriminate].
  destruct (String.eqb uid ""); [discriminate|].
  destruct (Store.userSessions st !! uid) as [ids|] eqn:Ei; [|discriminate].
  intros H. destruct (first_live_key_Some _ _ _ _ H)
    as (pre & sid & post & s & -> & _ & Hs & Hu & Ht & Hk).
  exists uid, (pre ++ sid :: post)%list, sid, s.
  split; [reflexivity|]. split; [exact Ei|]. split.
  { apply elem_of_app. right. left. }
  auto.
Qed.

(** X24: the handlers for up-voting and for deleting a post call the
    backend at most once, and only with the key of an unused, unexpired
    session listed for the user named in [x-user-id] as bearer credential;
    when there is no such key they answer 401 without calling the
    backend. *)
Theorem write_handlers_use_live_credential
    (env : Keys.Env) (now : Z) (request : NextRequest) (id : string)
    (backend : Call -> Reply Json) (st : Store.State) :
  let up := upvote_POST Json Resp error_json relay_json env now request id backend st in
  let del := post_DELETE Json Resp error_json relay_json no_content
               env now request id backend st in
  (forall c, In c up.1 \/ In c del.1 ->
     exists uid ids sid s,
       headers request !! "x-user-id" = Some uid
       /\ Store.userSessions st !! uid = Some ids /\ sid ∈ ids
       /\ Store.sessions st !! sid = Some s
       /\ Store.used s = false /\ now < Store.expiresAt s
       /\ Store.moltbookApiKey s <> ""
       /\ call_authorization c = Some ("Bearer " ++ Store.moltbookApiKey s))
  /\ (length up.1 <= 1)%nat /\ (length del.1 <= 1)%nat
  /\ (moltbookKey now request st = None ->
      up = ([], error_json "Unauthorized" 401)
      /\ del = ([], error_json "Unauthorized" 401)).
Proof.
  cbv zeta. unfold upvote_POST, post_DELETE.
  destruct (moltbookKey now request st) as [key|] eqn:Ek.
  - destruct (moltbookKey_live _ _ _ _ Ek)
      as (uid & ids & sid & s & Hh & Hi & Hin & Hs & Hu & Ht & ->).
    destruct (String.eqb_spec (Store.moltbookApiKey s) "") as [He|Hne].
    + cbn [fst length]. split; [intros c [[]|[]]|]. repeat split; try lia; discriminate.
    + split; [|split; [|split; [|discriminate]]].
      * intros c Hc.
        assert (Ha : call_authorization c = Some (bearer (Store.moltbookApiKey s))).
        { destruct Hc as [Hc|Hc].
          - cbn [fst] in Hc. destruct Hc as [<-|[]]. reflexivity.
          - destruct (backend _) as [|[] ?]; cbn [fst] in Hc;
              try (destruct Hc as [<-|[]]; reflexivity).
            destruct p as [p|p|]; cbn [fst] in Hc;
              try (destruct Hc as [<-|[]]; reflexivity);
              repeat (destruct p as [p|p|]; cbn [fst] in Hc;
                      try (destruct Hc as [<-|[]]; reflexivity)). }
        exists uid, ids, sid, s. repeat split; assumption.
      * cbn [fst length]. lia.
      * destruct (backend _) as [|[] ?]; cbn [fst length]; try lia.
        destruct p as [p|p|]; cbn [fst length]; try lia;
          repeat (destruct p as [p|p|]; cbn [fst length]; try lia).
  - cbn [fst length]. split; [intros c [[]|[]]|]. repeat split; lia.
Qed.

(** X25: after [invalidateUser(u)], a request made on behalf of [u] is
    answered 401 by the two writing handlers without any call to the
    backend, and the reading handler calls the backend without
    credential. *)
Theorem logout_cuts_credential
    (env : Keys.Env) (now : Z) (request : NextRequest) (id uid : string)
    (backend : Call -> Reply Json) (st : Store.State) :
  headers request !! "x-user-id" = Some uid ->
  let st' := Store.invalidateUser uid st in
  upvote_POST Json Resp error_json relay_json env now request id backend st'
  = ([], error_json "Unauthorized" 401)
  /\ post_DELETE Json Resp error_json relay_json no_content
       env now request id backend st'
     = ([], error_json "Unauthorized" 401)
  /\ exists c,
       (post_GET Json Resp error_json relay_json env now request id backend st').1
       = [c]
       /\ call_authorization c = None.
Proof.
  intros Hh. cbv zeta.
  assert (Hk : moltbookKey now request (Store.invalidateUser uid st) = None).
  { unfold moltbookKey. rewrite Hh. destruct (String.eqb uid ""); [reflexivity|].
    unfold Store.getMoltbookKey, Store.invalidateUser.
    destruct (Store.userSessions st !! uid) as [ids|] eqn:E.
    - cbn [Store.userSessions]. rewrite lookup_delete_eq. reflexivity.
    - rewrite E. reflexivity. }
  unfold upvote_POST, post_DELETE, post_GET. rewrite Hk.
  split; [reflexivity|]. split; [reflexivity|].
  eexists. split; reflexivity.
Qed.

End ProxyFacts.

Section StoreCreateLookup.
Import Store.

Lemma createSession_listed uuid now uid key st :
  exists ids,
    userSessions (createSession uuid now uid key st).2 !! uid = Some ids
    /\ uuid ∈ ids
    /\ forall j, j ∈ ids -> j = uuid
                 \/ exists ids0, userSessions st !! uid = Some ids0 /\ j ∈ ids0.
Proof.
  cbn [createSession snd userSessions]. rewrite lookup_alter_eq.
  destruct (userSessions st !! uid) as [ids0|] eqn:E.
  - rewrite E. eexists. split; [reflexivity|]. split.
    + apply set_add_elem. left. reflexivity.
    + intros j Hj. apply set_add_elem in Hj. destruct Hj as [->|Hj]; [left|right]; eauto.
  - rewrite lookup_insert_eq. eexists. split; [reflexivity|]. split.
    + apply set_add_elem. left. reflexivity.
    + intros j Hj. apply set_add_elem in Hj. destruct Hj as [->|Hj]; [left; reflexivity|].
      inversion Hj.
Qed.

(** X26: right after [createSession(u, key)] and until the new session
    expires, [getMoltbookKey(u)] returns a key; it returns the new key
    whenever it returned none on the store before the creation. *)
Theorem createSession_then_lookup
    (uuid : string) (now : Z) (uid key : string) (st : State) (now' : Z) :
  now' < now + SESSION_TTL_MS ->
  is_Some (getMoltbookKey now' uid (createSession uuid now uid key st).2)
  /\ (getMoltbookKey now' uid st = None ->
      getMoltbookKey now' uid (createSession uuid now uid key st).2 = Some key).
Proof.
  intros Ht.
  destruct (createSession_listed uuid now uid key st) as (ids & Hids & Hin & Hold).
  assert (Hnew : sessions (createSession uuid now uid key st).2 !! uuid
                 = Some {| moltbookApiKey := key; userId := uid;
                           expiresAt := now + SESSION_TTL_MS; used := false |})
    by apply lookup_insert_eq.
  assert (Hlive : live_entry now' (sessions (createSession uuid now uid key st).2) uuid
                  = true).
  { unfold live_entry. rewrite Hnew. cbn [used expiresAt negb andb].
    apply Z.ltb_lt. exact Ht. }
  assert (Hsome : is_Some (getMoltbookKey now' uid (createSession uuid now uid key st).2)).
  { unfold getMoltbookKey. rewrite Hids.
    destruct (first_live_key now' _ ids) as [k|] eqn:E; [eauto|].
    rewrite first_live_key_None in E. rewrite (E uuid Hin) in Hlive. discriminate. }
  split; [exact Hsome|].
  intros Hnone. destruct Hsome as [k Hk]. rewrite Hk. f_equal.
  unfold getMoltbookKey in Hk, Hnone. rewrite Hids in Hk.
  destruct (first_live_key_Some _ _ _ _ Hk)
    as (pre & j & post & s & -> & _ & Hs & Hu & Hlt & ->).
  destruct (Hold j) as [-> | (ids0 & Hi0 & Hj0)].
  { apply elem_of_app. right. left. }
  - rewrite Hnew in Hs. injection Hs as <-. reflexivity.
  - rewrite Hi0 in Hnone. rewrite first_live_key_None in Hnone.
    specialize (Hnone j Hj0). unfold live_entry in Hnone.
    destruct (decide (j = uuid)) as [->|Hne].
    + rewrite Hnew in Hs. injection Hs as <-. reflexivity.
    + cbn [createSession snd sessions] in Hs.
      rewrite lookup_insert_ne in Hs by congruence.
      rewrite Hs, Hu in Hnone. cbn [negb andb] in Hnone.
      apply Z.ltb_ge in Hnone. lia.
Qed.

Lemma createSession_then_lookup_witness :
  is_Some (getMoltbookKey 5 "u" (createSession "a" 0 "u" "k" empty_state).2)
  /\ (getMoltbookKey 5 "u" empty_state = None ->
      getMoltbookKey 5 "u" (createSession "a" 0 "u" "k" empty_state).2 = Some "k").
Proof.
  apply (createSession_then_lookup "a" 0 "u" "k" empty_state 5).
  vm_compute. reflexivity.
Defined.

End StoreCreateLookup.

Lemma logout_cuts_credential_witness :
  let request := {| Http.method := "POST"; Http.pathname := "/api/posts/42/upvote";
                    Http.headers := {[ "x-user-id" := "u" ]};
                    Http.cookies := ∅ |} in
  let st' := Store.invalidateUser "u"
               (Store.createSession "a" 0 "u" "k" Store.empty_state).2 in
  let backend := fun _ : Proxy.Call => Proxy.Replied unit 200 (Some tt) in
  Proxy.upvote_POST unit (string * Z) pair (fun _ s => Some ("ok", s))
    ∅ 5 request "42" backend st'
  = ([], ("Unauthorized", 401)).
Proof.
  cbv zeta.
  apply (logout_cuts_credential unit (string * Z)%type pair
           (fun _ s => Some ("ok", s)) ("", 204) ∅ 5
           {| Http.method := "POST"; Http.pathname := "/api/posts/42/upvote";
              Http.headers := {[ "x-user-id" := "u" ]};
              Http.cookies := ∅ |} "42" "u").
  reflexivity.
Defined.
